(** * aplt.runner: the scenario runner of the push-service load tester

    A shallow embedding of [src/aplt/runner.py] (Python 2, Twisted):
    the [RunnerHarness] that multiplexes websocket connections onto
    waiting command processors, the Deferred chains that carry a
    notification result back to its processor, the [LoadRunner] that
    staggers the launch of a test plan through [reactor.callLater], and
    the test-plan parser.

    Python objects are identified by natural numbers; every call into a
    collaborator that lives outside [runner.py] (autobahn, treq, twisted,
    txstatsd, [aplt.client]) is recorded as an [event] in the harness's
    log.  Integers are Python 2 integers: [/] is floor division. *)

From Stdlib Require Import ZArith String Ascii Bool List Lia.
From stdpp Require Import gmap list strings.
Import ListNotations.
Local Open Scope Z_scope.

(** ** Object identities and Python values *)

(** A [CommandProcessor] instance (class of [aplt.client]); instances are
    plain objects, hence truthy. *)
Abbreviation Processor := nat.

(** A [WSClientProtocol] instance, the key of [_ws_clients]. *)
Abbreviation Conn := nat.

Inductive exn :=
| Exception (msg : string)
| ValueError
| TypeError
| ZeroDivisionError
| ImportError
| AttributeError
| NameError
| IndexError
| AssertionError.

(** A Twisted [Failure]: what the transport reported, or an exception
    raised by a callback of the chain. *)
Inductive Failure :=
| TransportFailure (reason : string)
| Raised (e : exn).

(** A treq response.  [content_result] is what the Deferred returned by
    [result.content()] fires with: the fully read body, or a failure. *)
Record Response := {
  status : Z;
  content_result : string + Failure
}.

(** The values that flow through the notification callbacks. *)
Inductive pyval :=
| PNone
| PProcessor (p : Processor)
| PResponse (r : Response)
| PBody (b : string)
| PFailure (f : Failure).

Definition is_failure (v : pyval) : bool :=
  match v with PFailure _ => true | _ => false end.

(** The values of a test-plan tuple. *)
Inductive value :=
| VInt (n : Z)
| VStr (s : string)
| VFunc (module_name func_name : string).

(** ** Calls that leave [runner.py] *)

Inductive event :=
| EvProcessorRun (p : Processor)
    (* CommandProcessor(scenario, args, self) followed by processor.run() *)
| EvConnectWS
    (* connectWS(self._factory, contextFactory=self._factory_context) *)
| EvLogMsg (msg : string)
| EvSendClose (c : Conn)
| EvPost (url : string) (body : option string) (headers : list (string * string))
    (* treq.post(url[, data, headers=...], allow_redirects=False) *)
| EvSendCommandResult (p : Processor) (result : pyval * pyval)
    (* processor._send_command_result((a, b)) *)
| EvTiming (name : string) (duration : Z)
| EvIncrement (name : string) (count : Z).

(** ** Deferred chains

    [d.addCallback(f, *args)] and [d.addErrback(f, *args)] each append one
    link; when the Deferred fires, every link passes the current result to
    its callback (or to its errback when the result is a failure) as
    [f(result, *args)]; what [f] returns, or the exception it raises,
    becomes the result seen by the next link. *)

Inductive method := Sent_notification | Finished_notification | Error_notif.

Record link := {
  on_result : option (method * list pyval);
  on_failure : option (method * list pyval)
}.

Definition addCallback (m : method) (args : list pyval) : link :=
  {| on_result := Some (m, args); on_failure := None |}.

Definition addErrback (m : method) (args : list pyval) : link :=
  {| on_result := None; on_failure := Some (m, args) |}.

Abbreviation Deferred := (list link).

(** ** RunnerHarness *)

Module RunnerHarness.

Record t := {
  _factory : string;                (* the url of the WebSocketClientFactory *)
  _factory_context : bool;          (* an ssl.ClientContextFactory, or None *)
  _crypto_key : string;
  _scenario : value;
  _scenario_args : list value;
  _processors : Z;
  _ws_clients : gmap Conn Processor;
  _connect_waiters : list Processor; (* the deque, head first *)
  log : list event                   (* oldest first *)
}.

Definition crypto_key : string :=
  "keyid=" ++ String (ascii_of_nat 34) "http://example.org/bob/keys/123;salt="
           ++ String (ascii_of_nat 34) "XZwpw6o37R-6qoZjw6KwAw"
           ++ String (ascii_of_nat 34) EmptyString.

Definition __init__ (url : string) (scenario : value) (scenario_args : list value) : t :=
  {| _factory := url;
     _factory_context := String.prefix "wss" url;
     _crypto_key := crypto_key;
     _scenario := scenario;
     _scenario_args := scenario_args;
     _processors := 0;
     _ws_clients := ∅;
     _connect_waiters := [];
     log := [] |}.

Definition emit (e : event) (h : t) : t :=
  {| _factory := _factory h;
     _factory_context := _factory_context h;
     _crypto_key := _crypto_key h;
     _scenario := _scenario h;
     _scenario_args := _scenario_args h;
     _processors := _processors h;
     _ws_clients := _ws_clients h;
     _connect_waiters := _connect_waiters h;
     log := log h ++ [e] |}.

Definition set_processors (n : Z) (h : t) : t :=
  {| _factory := _factory h;
     _factory_context := _factory_context h;
     _crypto_key := _crypto_key h;
     _scenario := _scenario h;
     _scenario_args := _scenario_args h;
     _processors := n;
     _ws_clients := _ws_clients h;
     _connect_waiters := _connect_waiters h;
     log := log h |}.

Definition set_ws_clients (m : gmap Conn Processor) (h : t) : t :=
  {| _factory := _factory h;
     _factory_context := _factory_context h;
     _crypto_key := _crypto_key h;
     _scenario := _scenario h;
     _scenario_args := _scenario_args h;
     _processors := _processors h;
     _ws_clients := m;
     _connect_waiters := _connect_waiters h;
     log := log h |}.

Definition set_connect_waiters (q : list Processor) (h : t) : t :=
  {| _factory := _factory h;
     _factory_context := _factory_context h;
     _crypto_key := _crypto_key h;
     _scenario := _scenario h;
     _scenario_args := _scenario_args h;
     _processors := _processors h;
     _ws_clients := _ws_clients h;
     _connect_waiters := q;
     log := log h |}.

(** [run]: [p] is the identity of the [CommandProcessor] the call creates.
    [processor.run()] belongs to [aplt.client]; the harness methods the
    driver calls in response are calls of their own.  Those it calls
    before [processor.run()] returns act on the harness before the
    increment below, which reads the counter afterwards: in a sequence of
    calls they stand before this [run]. *)
Definition run (p : Processor) (h : t) : t :=
  let h := emit (EvProcessorRun p) h in
  set_processors (_processors h + 1) h.

Definition connect (processor : Processor) (h : t) : t :=
  let h := emit EvConnectWS h in
  set_connect_waiters (_connect_waiters h ++ [processor]) h.

Definition notification_headers (h : t) : list (string * string) :=
  [ ("Content-Type", "application/octet-stream");
    ("Content-Encoding", "aesgcm-128");
    ("Encryption", _crypto_key h);
    ("Encryption-Key", "Invalid-Key-Used-Here") ]%string.

(** [if data:] is false for [None] and for the empty string. *)
Definition truthy_data (data : option string) : bool :=
  match data with
  | Some (String _ _) => true
  | _ => false
  end.

(** [send_notification]: issues the request and returns the Deferred [d]
    with its two links.  [url] is ASCII text, which [encode("utf-8")]
    leaves as it is; [ttl] is not used by the body. *)
Definition send_notification (processor : Processor) (url : string)
    (data : option string) (ttl : Z) (h : t) : t * Deferred :=
  let h :=
    if truthy_data data
    then emit (EvPost url data (notification_headers h)) h
    else emit (EvPost url None []) h in
  (h, [ addCallback Sent_notification [PProcessor processor];
        addErrback Error_notif [PProcessor processor] ]).

(** The three callbacks, applied to the positional arguments Twisted
    passes ([result] first, then the extra arguments of the link).  Each
    returns the new harness, what the call returns or raises, and the
    Deferred it has set up on a response's [content()], if any.  A call
    with the wrong number of positional arguments raises [TypeError]
    before the body runs. *)
Definition _sent_notification (args : list pyval) (h : t)
    : t * (pyval + exn) * option (Response * Deferred) :=
  match args with
  | [result; processor] =>
      match result with
      | PResponse r =>
          (h, inl PNone,
           Some (r, [ addCallback Finished_notification [result; processor];
                      addErrback Error_notif [result; processor] ]))
      | _ => (h, inr AttributeError, None)
      end
  | _ => (h, inr TypeError, None)
  end.

Definition _finished_notification (args : list pyval) (h : t)
    : t * (pyval + exn) * option (Response * Deferred) :=
  match args with
  | [result; response; processor] =>
      match processor with
      | PProcessor p =>
          (emit (EvSendCommandResult p (response, result)) h, inl PNone, None)
      | _ => (h, inr AttributeError, None)
      end
  | _ => (h, inr TypeError, None)
  end.

Definition _error_notif (args : list pyval) (h : t)
    : t * (pyval + exn) * option (Response * Deferred) :=
  match args with
  | [failure; processor] =>
      match processor with
      | PProcessor p =>
          (emit (EvSendCommandResult p (PNone, failure)) h, inl PNone, None)
      | _ => (h, inr AttributeError, None)
      end
  | _ => (h, inr TypeError, None)
  end.

Definition call_method (m : method) : list pyval -> t
    -> t * (pyval + exn) * option (Response * Deferred) :=
  match m with
  | Sent_notification => _sent_notification
  | Finished_notification => _finished_notification
  | Error_notif => _error_notif
  end.

(** Firing a Deferred with [res]: returns the harness, the result left at
    the end of the chain (a failure there is an unhandled error) and the
    Deferreds set up meanwhile. *)
Fixpoint fire (d : Deferred) (res : pyval) (h : t)
    : t * pyval * list (Response * Deferred) :=
  match d with
  | [] => (h, res, [])
  | l :: d' =>
      match (if is_failure res then on_failure l else on_result l) with
      | None => fire d' res h
      | Some (m, args) =>
          let '(h1, out, spawned) := call_method m (res :: args) h in
          let res1 := match out with
                      | inl v => v
                      | inr e => PFailure (Raised e)
                      end in
          let '(h2, res2, more) := fire d' res1 h1 in
          (h2, res2, from_option (λ x, [x]) [] spawned ++ more)
      end
  end.

Definition content_value (r : Response) : pyval :=
  match content_result r with
  | inl body => PBody body
  | inr f => PFailure f
  end.

(** Each Deferred set up on a response's [content()] fires with that
    response's [content_result].  The chains of this file set up nothing
    further, so one round is the whole story. *)
Fixpoint fire_contents (ds : list (Response * Deferred)) (h : t)
    : t * list pyval :=
  match ds with
  | [] => (h, [])
  | (r, d) :: ds' =>
      let '(h1, res, _) := fire d (content_value r) h in
      let '(h2, rs) := fire_contents ds' h1 in
      (h2, res :: rs)
  end.

(** One notification request from submission to quiescence: [outcome] is
    what [treq.post] fires [d] with.  Returns the harness and the results
    left at the end of each chain. *)
Definition notify (processor : Processor) (url : string) (data : option string)
    (ttl : Z) (outcome : Response + Failure) (h : t) : t * list pyval :=
  let '(h1, d) := send_notification processor url data ttl h in
  let res := match outcome with
             | inl r => PResponse r
             | inr f => PFailure f
             end in
  let '(h2, res_d, spawned) := fire d res h1 in
  let '(h3, rs) := fire_contents spawned h2 in
  (h3, res_d :: rs).

(** [add_client]: the returned option is the method's return value
    ([None] for Python's implicit [None]). *)
Definition add_client (ws_client : Conn) (h : t) : t * option Processor :=
  match _connect_waiters h with
  | [] =>
      let h := emit (EvLogMsg "No waiting processors for new client connection.") h in
      (emit (EvSendClose ws_client) h, None)
  | processor :: rest =>
      let h := set_connect_waiters rest h in
      (set_ws_clients (<[ws_client := processor]> (_ws_clients h)) h,
       Some processor)
  end.

(** [remove_client]: [dict.pop(ws_client, None)], then the reconnect when
    nothing was registered and somebody still waits. *)
Definition remove_client (ws_client : Conn) (h : t) : t :=
  let processor := _ws_clients h !! ws_client in
  let h := set_ws_clients (delete ws_client (_ws_clients h)) h in
  match processor with
  | None =>
      if (0 <? length (_connect_waiters h))%nat
      then emit EvConnectWS h
      else h
  | Some _ => h
  end.

Definition remove_processor (h : t) : t :=
  set_processors (_processors h - 1) h.

Definition timer (name : string) (duration : Z) (h : t) : t :=
  emit (EvTiming name duration) h.

Definition counter (name : string) (count : Z) (h : t) : t :=
  emit (EvIncrement name count) h.

(** The calls a harness receives from its drivers, from the connection
    factory and from the transport.  [RemoveProcessor p] is
    [remove_processor()] called by driver [p]; [Notify] is a notification
    request together with what the transport answers. *)
Inductive call :=
| Run (p : Processor)
| Connect (p : Processor)
| AddClient (c : Conn)
| RemoveClient (c : Conn)
| RemoveProcessor (p : Processor)
| Notify (p : Processor) (url : string) (data : option string) (ttl : Z)
         (outcome : Response + Failure)
| Timer (name : string) (duration : Z)
| Counter (name : string) (count : Z).

Definition exec (c : call) (h : t) : t :=
  match c with
  | Run p => run p h
  | Connect p => connect p h
  | AddClient c => fst (add_client c h)
  | RemoveClient c => remove_client c h
  | RemoveProcessor _ => remove_processor h
  | Notify p url data ttl outcome => fst (notify p url data ttl outcome h)
  | Timer name d => timer name d h
  | Counter name n => counter name n h
  end.

Definition execs (cs : list call) (h : t) : t :=
  fold_left (λ h c, exec c h) cs h.

(** The processors a sequence of [add_client] calls returns, with the
    harness they leave. *)
Fixpoint add_clients (cs : list Conn) (h : t) : t * list (option Processor) :=
  match cs with
  | [] => (h, [])
  | c :: cs' =>
      let '(h1, r) := add_client c h in
      let '(h2, rs) := add_clients cs' h1 in
      (h2, r :: rs)
  end.

Definition connects (ps : list Processor) (h : t) : t :=
  fold_left (λ h p, connect p h) ps h.

End RunnerHarness.

(** ** LoadRunner, with the reactor's delayed calls

    [start] defines the closure [runall] inside its loops.  A Python
    closure reads the variables of the enclosing call when it runs, not
    when it is defined: [runall] refers to the cells [harness] and
    [stagger] of the [start] call that created it.  The cells of each
    [start] call are a [Frame]; a delayed call holds the identity of its
    frame. *)

Record Frame := {
  cell_harness : option nat;     (* index of the harness in [_harnesses] *)
  cell_stagger : option value
}.

Record DelayedCall := {
  seconds : Z;                   (* first argument of reactor.callLater *)
  closure : nat                  (* the frame [runall] closes over *)
}.

Module LoadRunner.

Record t := {
  _harnesses : list RunnerHarness.t;
  _testplans : list (list value);
  _started : bool;
  _queued_calls : Z
}.

Definition __init__ (scenario_list : list (list value)) : t :=
  {| _harnesses := [];
     _testplans := scenario_list;
     _started := false;
     _queued_calls := 0 |}.

(** [all([...])] *)
Definition all (l : list bool) : bool := forallb id l.

Definition finished (self : t) : bool :=
  all [ _started self;
        _queued_calls self =? 0;
        all (map (λ x, RunnerHarness._processors x =? 0) (_harnesses self)) ].

End LoadRunner.

(** The load runner, the frames of its [start] calls, the reactor's
    pending delayed calls and the next fresh processor identity. *)
Record World := {
  runner : LoadRunner.t;
  frames : list Frame;
  delayed : list DelayedCall;
  next_processor : nat
}.

Definition new_world (scenario_list : list (list value)) : World :=
  {| runner := LoadRunner.__init__ scenario_list;
     frames := [];
     delayed := [];
     next_processor := 0%nat |}.

Definition set_runner (r : LoadRunner.t) (w : World) : World :=
  {| runner := r; frames := frames w; delayed := delayed w;
     next_processor := next_processor w |}.

Definition set_frames (fs : list Frame) (w : World) : World :=
  {| runner := runner w; frames := fs; delayed := delayed w;
     next_processor := next_processor w |}.

Definition set_delayed (ds : list DelayedCall) (w : World) : World :=
  {| runner := runner w; frames := frames w; delayed := ds;
     next_processor := next_processor w |}.

Definition set_next_processor (n : nat) (w : World) : World :=
  {| runner := runner w; frames := frames w; delayed := delayed w;
     next_processor := n |}.

Definition set_harnesses (hs : list RunnerHarness.t) (w : World) : World :=
  set_runner {| LoadRunner._harnesses := hs;
                LoadRunner._testplans := LoadRunner._testplans (runner w);
                LoadRunner._started := LoadRunner._started (runner w);
                LoadRunner._queued_calls := LoadRunner._queued_calls (runner w) |} w.

Definition set_started (b : bool) (w : World) : World :=
  set_runner {| LoadRunner._harnesses := LoadRunner._harnesses (runner w);
                LoadRunner._testplans := LoadRunner._testplans (runner w);
                LoadRunner._started := b;
                LoadRunner._queued_calls := LoadRunner._queued_calls (runner w) |} w.

Definition set_queued_calls (n : Z) (w : World) : World :=
  set_runner {| LoadRunner._harnesses := LoadRunner._harnesses (runner w);
                LoadRunner._testplans := LoadRunner._testplans (runner w);
                LoadRunner._started := LoadRunner._started (runner w);
                LoadRunner._queued_calls := n |} w.

Definition harnesses (w : World) : list RunnerHarness.t :=
  LoadRunner._harnesses (runner w).

Definition queued_calls (w : World) : Z :=
  LoadRunner._queued_calls (runner w).

Definition set_cell_harness (fid i : nat) (w : World) : World :=
  match frames w !! fid with
  | Some fr =>
      set_frames (<[fid := {| cell_harness := Some i;
                              cell_stagger := cell_stagger fr |}]> (frames w)) w
  | None => w
  end.

Definition set_cell_stagger (fid : nat) (v : value) (w : World) : World :=
  match frames w !! fid with
  | Some fr =>
      set_frames (<[fid := {| cell_harness := cell_harness fr;
                              cell_stagger := Some v |}]> (frames w)) w
  | None => w
  end.

(** Python 2 arithmetic on the values of a plan tuple. *)
Definition py_div (a b : value) : exn + Z :=
  match a, b with
  | VInt x, VInt y => if y =? 0 then inl ZeroDivisionError else inr (x / y)
  | _, _ => inl TypeError
  end.

Definition py_add_int (a : value) (d : Z) : exn + Z :=
  match a with
  | VInt x => inr (x + d)
  | _ => inl TypeError
  end.

(** [range(n)]: empty when [n <= 0]. *)
Definition range (n : Z) : list Z := map Z.of_nat (seq 0 (Z.to_nat n)).

(** [reactor.callLater(seconds, runall)]: the reactor asserts
    [seconds >= 0] before it records the call. *)
Definition callLater (t : Z) (fid : nat) (w : World) : exn + World :=
  if t <? 0
  then inl AssertionError
  else inr (set_delayed (delayed w ++ [{| seconds := t; closure := fid |}]) w).

(** The inner loop of [start]: [for delay in range(iterations)]. *)
Fixpoint schedule (fid : nat) (overall_delay : value) (delays : list Z)
    (w : World) : World * option exn :=
  match delays with
  | [] => (w, None)
  | delay :: rest =>
      let w := set_queued_calls (queued_calls w + 1) w in
      match py_add_int overall_delay delay with
      | inl e => (w, Some e)
      | inr t =>
          match callLater t fid w with
          | inl e => (w, Some e)
          | inr w => schedule fid overall_delay rest w
          end
      end
  end.

(** The outer loop of [start]: [for scenario, quantity, stagger,
    overall_delay in self._testplans]. *)
Fixpoint start_plans (websocket_url : string) (fid : nat)
    (plans : list (list value)) (w : World) : World * option exn :=
  match plans with
  | [] => (w, None)
  | plan :: rest =>
      match plan with
      | [scenario; quantity; stagger; overall_delay] =>
          let w := set_cell_stagger fid stagger w in
          let harness := RunnerHarness.__init__ websocket_url scenario [] in
          let w := set_cell_harness fid (length (harnesses w)) w in
          let w := set_harnesses (harnesses w ++ [harness]) w in
          match py_div quantity stagger with
          | inl e => (w, Some e)
          | inr iterations =>
              match schedule fid overall_delay (range iterations) w with
              | (w, Some e) => (w, Some e)
              | (w, None) => start_plans websocket_url fid rest w
              end
          end
      | _ => (w, Some ValueError)
      end
  end.

Definition start (websocket_url : string) (w : World) : World * option exn :=
  let fid := length (frames w) in
  let w := set_frames (frames w ++ [{| cell_harness := None;
                                       cell_stagger := None |}]) w in
  match start_plans websocket_url fid (LoadRunner._testplans (runner w)) w with
  | (w, Some e) => (w, Some e)
  | (w, None) => (set_started true w, None)
  end.

(** [harness.run()] inside [runall]: [harness] is read from the frame. *)
Definition run_cell_harness (fid : nat) (w : World) : World * option exn :=
  match frames w !! fid with
  | Some {| cell_harness := Some i |} =>
      match harnesses w !! i with
      | Some h =>
          let p := next_processor w in
          let w := set_harnesses (<[i := RunnerHarness.run p h]> (harnesses w)) w in
          (set_next_processor (S p) w, None)
      | None => (w, Some IndexError)
      end
  | _ => (w, Some NameError)
  end.

Fixpoint run_times (n : nat) (fid : nat) (w : World) : World * option exn :=
  match n with
  | O => (w, None)
  | S n' =>
      match run_cell_harness fid w with
      | (w, Some e) => (w, Some e)
      | (w, None) => run_times n' fid w
      end
  end.

(** The body of [runall], run by the reactor when the delay has elapsed. *)
Definition runall (fid : nat) (w : World) : World * option exn :=
  match frames w !! fid with
  | Some {| cell_stagger := Some (VInt stagger) |} =>
      match run_times (Z.to_nat stagger) fid w with
      | (w, Some e) => (w, Some e)
      | (w, None) => (set_queued_calls (queued_calls w - 1) w, None)
      end
  | Some {| cell_stagger := Some _ |} => (w, Some TypeError)
  | _ => (w, Some NameError)
  end.

(** The reactor runs the [k]-th pending delayed call. *)
Definition fire (k : nat) (w : World) : World * option exn :=
  match delayed w !! k with
  | Some c => runall (closure c) (set_delayed (delete k (delayed w)) w)
  | None => (w, None)
  end.

(** The reactor's choice: the pending call that is due first, the one
    scheduled earlier among equals. *)
Fixpoint due_first (ds : list DelayedCall) : option (nat * Z) :=
  match ds with
  | [] => None
  | c :: ds' =>
      match due_first ds' with
      | Some (k, t) => if t <? seconds c then Some (S k, t) else Some (O, seconds c)
      | None => Some (O, seconds c)
      end
  end.

(** Runs the reactor until no delayed call is left ([fuel] bounds the
    number of calls run; [length (delayed w)] is enough, since [runall]
    schedules nothing). *)
Fixpoint run_reactor (fuel : nat) (w : World) : World * option exn :=
  match fuel with
  | O => (w, None)
  | S fuel' =>
      match due_first (delayed w) with
      | None => (w, None)
      | Some (k, _) =>
          match fire k w with
          | (w, Some e) => (w, Some e)
          | (w, None) => run_reactor fuel' w
          end
      end
  end.

(** What can happen to a load runner: [start], a delayed call coming due,
    and a call on one of its harnesses.  An exception ends the call that
    raised it and leaves the state as it is at that point. *)
Inductive action :=
| Start (websocket_url : string)
| Fire (k : nat)
| OnHarness (i : nat) (c : RunnerHarness.call).

Definition act (a : action) (w : World) : World :=
  match a with
  | Start url => fst (start url w)
  | Fire k => fst (fire k w)
  | OnHarness i c =>
      match harnesses w !! i with
      | Some h => set_harnesses (<[i := RunnerHarness.exec c h]> (harnesses w)) w
      | None => w
      end
  end.

Definition acts (l : list action) (w : World) : World :=
  fold_left (λ w a, act a w) l w.

(** ** The periodic shutdown checks

    Both are run once a second by a [LoopingCall]; what they return here
    is what they do to the process. *)

Inductive shutdown :=
| StopListening      (* STATS_PROTOCOL.stopListening() *)
| ReactorStop.       (* reactor.stop() *)

Definition check_processors (harness : RunnerHarness.t) : list shutdown :=
  if RunnerHarness._processors harness =? 0
  then [StopListening; ReactorStop]
  else [].

Definition check_loadrunner (load_runner : LoadRunner.t) : list shutdown :=
  if LoadRunner.finished load_runner
  then [StopListening; ReactorStop]
  else [].

(** ** The test-plan parser *)

(** The [str] methods the parser uses. *)
Module Str.

(** [sep in s] for a one-character [sep] *)
Fixpoint contains (sep : ascii) (s : string) : bool :=
  match s with
  | EmptyString => false
  | String c s' => Ascii.eqb c sep || contains sep s'
  end.

(** [s.split(sep)] for a one-character [sep]: never empty. *)
Fixpoint split (sep : ascii) (s : string) : list string :=
  match s with
  | EmptyString => [EmptyString]
  | String c s' =>
      if Ascii.eqb c sep then EmptyString :: split sep s'
      else match split sep s' with
           | piece :: pieces => String c piece :: pieces
           | [] => [String c EmptyString]
           end
  end.

(** The whitespace of a byte string: space, tab, newline, vertical tab,
    form feed, carriage return. *)
Definition isspace (c : ascii) : bool :=
  let n := nat_of_ascii c in
  (n =? 32)%nat || ((9 <=? n)%nat && (n <=? 13)%nat).

Fixpoint lstrip (s : string) : string :=
  match s with
  | String c s' => if isspace c then lstrip s' else s
  | EmptyString => EmptyString
  end.

Fixpoint rstrip (s : string) : string :=
  match s with
  | EmptyString => EmptyString
  | String c s' =>
      match rstrip s' with
      | EmptyString => if isspace c then EmptyString else String c EmptyString
      | kept => String c kept
      end
  end.

Definition strip (s : string) : string := rstrip (lstrip s).

End Str.

Section Parser.

(** [int(p)]: [None] stands for [ValueError]. *)
Variable int : string -> option Z.

(** [importlib.import_module(mod)]: the attributes of the module, or
    [None] when the import fails. *)
Variable import_module : string -> option (string -> option value).

Definition locate_function (func_name : string) : exn + value :=
  if negb (Str.contains ":" func_name)
  then inl (Exception "Missing function designation")
  else
    match Str.split ":" func_name with
    | [mod_; func_name] =>
        match import_module mod_ with
        | None => inl ImportError
        | Some module =>
            match module func_name with
            | None => inl AttributeError
            | Some scenario => inr scenario
            end
        end
    | _ => inl ValueError
    end.

Definition try_int_list_coerce (lst : list string) : list value :=
  map (λ p, match int p with
            | Some n => VInt n
            | None => VStr p
            end) lst.

(** The loop of [parse_testplan], [result] being the list built so far. *)
Fixpoint parse_plans (plans : list string) (result : list (list value))
    : exn + list (list value) :=
  match plans with
  | [] => inr result
  | plan :: plans' =>
      match map Str.strip (Str.split "," (Str.strip plan)) with
      | [] => inl IndexError
      | func_name :: parts =>
          match locate_function func_name with
          | inl e => inl e
          | inr func =>
              parse_plans plans' (result ++ [func :: try_int_list_coerce parts])
          end
      end
  end.

Definition parse_testplan (testplan : string) : exn + list (list value) :=
  parse_plans (Str.split "|" testplan) [].

(** [run_testplan(args, run=False)] for the arguments [WEBSOCKET_URL] and
    [TEST_PLAN]: the load runner it returns, if it gets to build one, and
    the exception that ended it, if any. *)
Definition run_testplan (websocket_url test_plan : string)
    : option World * option exn :=
  match parse_testplan test_plan with
  | inl e => (None, Some e)
  | inr testplans =>
      let lh := new_world testplans in
      let '(lh, r) := start websocket_url lh in
      (Some lh, r)
  end.

End Parser.

(** [int] on plain decimal literals: an optional sign, then digits. *)
Module Decimal.

Definition digit (c : ascii) : option Z :=
  let n := nat_of_ascii c in
  if ((48 <=? n)%nat && (n <=? 57)%nat)%bool then Some (Z.of_nat (n - 48)) else None.

Fixpoint digits (acc : Z) (s : string) : option Z :=
  match s with
  | EmptyString => Some acc
  | String c s' =>
      match digit c with
      | Some d => digits (10 * acc + d) s'
      | None => None
      end
  end.

Definition unsigned (s : string) : option Z :=
  match s with
  | EmptyString => None
  | _ => digits 0 s
  end.

Definition int (s : string) : option Z :=
  match s with
  | String "-" s' => option_map Z.opp (unsigned s')
  | String "+" s' => unsigned s'
  | _ => unsigned s
  end.

End Decimal.

(** The modules of the examples: [aplt.scenarios] with [basic]. *)
Definition example_modules (mod_ : string) : option (string -> option value) :=
  if String.eqb mod_ "aplt.scenarios"
  then Some (λ f, if String.eqb f "basic" then Some (VFunc mod_ f) else None)
  else None.

(** ** What the drivers see and do *)

(** The results delivered to processor [p], oldest first. *)
Fixpoint results_for (p : Processor) (l : list event) : list (pyval * pyval) :=
  match l with
  | [] => []
  | EvSendCommandResult q r :: l' =>
      if Nat.eqb p q then r :: results_for p l' else results_for p l'
  | _ :: l' => results_for p l'
  end.

(** The connection attempts started, counted. *)
Fixpoint connection_attempts (l : list event) : nat :=
  match l with
  | [] => O
  | EvConnectWS :: l' => S (connection_attempts l')
  | _ :: l' => connection_attempts l'
  end.

(** The discipline of the drivers: every processor comes from one [run],
    and calls [remove_processor] at most once, after that [run] has
    returned.  [live] holds the processors launched and not yet
    terminated, [dead] the terminated ones. *)
Fixpoint exactly_once (live dead : gset Processor)
    (cs : list RunnerHarness.call) : bool :=
  match cs with
  | [] => true
  | RunnerHarness.Run p :: cs' =>
      bool_decide (p ∉ live ∪ dead) && exactly_once ({[p]} ∪ live) dead cs'
  | RunnerHarness.RemoveProcessor p :: cs' =>
      bool_decide (p ∈ live) && exactly_once (live ∖ {[p]}) ({[p]} ∪ dead) cs'
  | _ :: cs' => exactly_once live dead cs'
  end.

Fixpoint count_runs (cs : list RunnerHarness.call) : Z :=
  match cs with
  | [] => 0
  | RunnerHarness.Run _ :: cs' => 1 + count_runs cs'
  | _ :: cs' => count_runs cs'
  end.

Fixpoint count_terminations (cs : list RunnerHarness.call) : Z :=
  match cs with
  | [] => 0
  | RunnerHarness.RemoveProcessor _ :: cs' => 1 + count_terminations cs'
  | _ :: cs' => count_terminations cs'
  end.

(** ** Vocabulary of the statements *)

Definition basic : value := VFunc "aplt.scenarios" "basic".
Definition other : value := VFunc "aplt.scenarios" "other".
Definition localhost : string := "ws://localhost:8080/".

Definition example_harness : RunnerHarness.t :=
  RunnerHarness.__init__ "ws://localhost:8080/" (VFunc "aplt.scenarios" "basic") [].

(** A batch scheduled by [start]: [overall_delay + delay] seconds, frame [fid]. *)
Definition batch (d : Z) (fid : nat) (k : Z) : DelayedCall :=
  {| seconds := d + k; closure := fid |}.

(** Every delayed call not yet run is counted in [_queued_calls]. *)
Definition pending_counted (w : World) : Prop :=
  Z.of_nat (length (delayed w)) <= queued_calls w.

(** The state a single-entry [start] leaves: one frame, one harness. *)
Definition one_harness (s : Z) (h : RunnerHarness.t) (w : World) : Prop :=
  frames w = [{| cell_harness := Some 0%nat; cell_stagger := Some (VInt s) |}]
  /\ harnesses w = [h]
  /\ Forall (λ c, closure c = 0%nat) (delayed w).

(** The processors that the [add_client] calls of a sequence of calls
    return, in order. *)
Fixpoint served (cs : list RunnerHarness.call) (h : RunnerHarness.t)
    : list Processor :=
  match cs with
  | [] => []
  | c :: cs' =>
      match c with
      | RunnerHarness.AddClient conn =>
          match snd (RunnerHarness.add_client conn h) with
          | Some p => [p]
          | None => []
          end
      | _ => []
      end ++ served cs' (RunnerHarness.exec c h)
  end.

(** The processors that the [connect] calls of a sequence enqueue. *)
Fixpoint enqueued (cs : list RunnerHarness.call) : list Processor :=
  match cs with
  | [] => []
  | RunnerHarness.Connect p :: cs' => p :: enqueued cs'
  | _ :: cs' => enqueued cs'
  end.

(** The processors launched and not terminated after a sequence of calls,
    [live] being those at its start. *)
Fixpoint survivors (live : gset Processor) (cs : list RunnerHarness.call)
    : gset Processor :=
  match cs with
  | [] => live
  | RunnerHarness.Run p :: cs' => survivors ({[p]} ∪ live) cs'
  | RunnerHarness.RemoveProcessor p :: cs' => survivors (live ∖ {[p]}) cs'
  | _ :: cs' => survivors live cs'
  end.

(** The processors created and started, oldest first. *)
Fixpoint launched (l : list event) : list Processor :=
  match l with
  | [] => []
  | EvProcessorRun p :: l' => p :: launched l'
  | _ :: l' => launched l'
  end.

(** How many processors a harness has started. *)
Definition launches (h : RunnerHarness.t) : Z :=
  Z.of_nat (length (launched (RunnerHarness.log h))).

(** By how much the counter of a harness exceeds the processors it has
    started. *)
Definition unlogged (h : RunnerHarness.t) : Z :=
  RunnerHarness._processors h - launches h.

(** The counter of every harness is the number of processors it has
    started. *)
Definition all_logged (w : World) : Prop :=
  Forall (λ h, unlogged h = 0) (harnesses w).

(** Every processor comes from one [run] and calls [remove_processor] at
    most once, at any time from the moment its [processor.run()] has
    begun: also while that call is still in progress, that is, in a
    sequence of calls, before its own [run]. *)
Definition once_per_instance (cs : list RunnerHarness.call) : bool :=
  let runs := omap (λ c, match c with
                          | RunnerHarness.Run p => Some p
                          | _ => None
                          end) cs in
  let ends := omap (λ c, match c with
                          | RunnerHarness.RemoveProcessor p => Some p
                          | _ => None
                          end) cs in
  bool_decide (NoDup runs) && bool_decide (NoDup ends)
  && bool_decide (ends ⊆ runs).

(** By how much [_queued_calls] exceeds the delayed calls not yet run. *)
Definition overcount (w : World) : Z :=
  queued_calls w - Z.of_nat (length (delayed w)).

(** A plan tuple whose quantity, stagger and delay are integers. *)
Definition int_plan (e : value * Z * Z * Z) : list value :=
  let '(scenario, quantity, stagger, overall_delay) := e in
  [scenario; VInt quantity; VInt stagger; VInt overall_delay].

(** The batches [start] schedules for such a tuple. *)
Definition batches_of (fid : nat) (e : value * Z * Z * Z) : list DelayedCall :=
  let '(_, quantity, stagger, overall_delay) := e in
  map (batch overall_delay fid) (range (quantity / stagger)).

Definition stagger_of (e : value * Z * Z * Z) : Z :=
  let '(_, _, stagger, _) := e in stagger.

Definition scenario_of (e : value * Z * Z * Z) : value :=
  let '(scenario, _, _, _) := e in scenario.

Definition delay_of (e : value * Z * Z * Z) : Z :=
  let '(_, _, _, overall_delay) := e in overall_delay.

(** A tuple of integers that [start] can schedule: the stagger is not
    zero and the delay is not negative. *)
Definition sound_entry (e : value * Z * Z * Z) : Prop :=
  stagger_of e <> 0 /\ 0 <= delay_of e.

(** The processors waiting or registered do not outnumber the connection
    attempts started. *)
Definition attempts_cover (h : RunnerHarness.t) : Prop :=
  (length (RunnerHarness._connect_waiters h) + size (RunnerHarness._ws_clients h)
   <= connection_attempts (RunnerHarness.log h))%nat.

(** What one pass of the outer loop of [start] does for a tuple of
    integers with a stagger other than zero and a delay that is not
    negative. *)
Definition after_entry (url : string) (fid : nat) (w : World)
    (e : value * Z * Z * Z) : World :=
  let '(scenario, quantity, stagger, overall_delay) := e in
  let w1 := set_cell_stagger fid (VInt stagger) w in
  let w2 := set_cell_harness fid (length (harnesses w1)) w1 in
  let w3 := set_harnesses
              (harnesses w2 ++ [RunnerHarness.__init__ url scenario []]) w2 in
  set_delayed
    (delayed w3 ++ map (batch overall_delay fid) (range (quantity / stagger)))
    (set_queued_calls
       (queued_calls w3 + Z.of_nat (length (range (quantity / stagger)))) w3).

(** The frame of [start] call 0 holds harness [i] and stagger [s], and
    every delayed call closes over that frame. *)
Definition aimed (i : nat) (s : Z) (w : World) : Prop :=
  frames w !! 0%nat
    = Some {| cell_harness := Some i; cell_stagger := Some (VInt s) |}
  /\ (i < length (harnesses w))%nat
  /\ Forall (λ c, closure c = 0%nat) (delayed w).

Definition first_frame : Frame :=
  {| cell_harness := None; cell_stagger := None |}.

(** The world in which the outer loop of the first [start] call begins. *)
Definition entering (plans : list (list value)) : World :=
  set_frames [first_frame] (new_world plans).

(** The live-instance counters of the harnesses, in order. *)
Definition counters (w : World) : list Z :=
  RunnerHarness._processors <$> harnesses w.

(** What [parse_testplan] makes of one entry of the plan. *)
Definition parsed_entry (int : string -> option Z)
    (import_module : string -> option (string -> option value))
    (raw : string) (entry : list value) : Prop :=
  exists (func_name : string) (parts : list string) (func : value),
    map Str.strip (Str.split "," (Str.strip raw)) = func_name :: parts
    /\ locate_function import_module func_name = inr func
    /\ entry = func :: try_int_list_coerce int parts.

(** The HTTP requests issued, counted. *)
Fixpoint requests (l : list event) : nat :=
  match l with
  | [] => O
  | EvPost _ _ _ :: l' => S (requests l')
  | _ :: l' => requests l'
  end.

(** * Properties *)

Example parse_two_plans :
  parse_testplan Decimal.int example_modules
    "aplt.scenarios:basic, 1000, 100, 0 | aplt.scenarios:basic, 150, 100, 5"
  = inr [ [VFunc "aplt.scenarios" "basic"; VInt 1000; VInt 100; VInt 0];
          [VFunc "aplt.scenarios" "basic"; VInt 150; VInt 100; VInt 5] ].
Proof. reflexivity. Qed.

Example split_keeps_empty_pieces :
  Str.split "," "a,,b," = ["a"; EmptyString; "b"; EmptyString]%string.
Proof. reflexivity. Qed.

(** ** RunnerHarness: the waiter queue and the registry *)

Section HarnessFacts.

Import RunnerHarness.

Lemma connects_waiters (ps : list Processor) (h : t) :
  _connect_waiters (connects ps h) = _connect_waiters h ++ ps.
Proof.
  revert h. induction ps as [|p ps IH]; intros h; simpl.
  - by rewrite app_nil_r.
  - unfold connects in IH. rewrite IH. simpl. by rewrite <- app_assoc.
Qed.

Lemma connects_frame (ps : list Processor) (h : t) :
  _ws_clients (connects ps h) = _ws_clients h
  /\ _processors (connects ps h) = _processors h.
Proof.
  revert h. induction ps as [|p ps IH]; intros h; [done|].
  unfold connects in *. simpl fold_left.
  destruct (IH (connect p h)) as [H1 H2]. rewrite H1, H2. done.
Qed.

Lemma add_client_head (c : Conn) (p : Processor) (q : list Processor) (h : t) :
  _connect_waiters h = p :: q ->
  add_client c h
  = (set_ws_clients (<[c := p]> (_ws_clients h)) (set_connect_waiters q h), Some p).
Proof. intros Hq. unfold add_client. by rewrite Hq. Qed.

Lemma add_client_surplus (c : Conn) (h : t) :
  _connect_waiters h = [] ->
  add_client c h
  = (emit (EvSendClose c)
       (emit (EvLogMsg "No waiting processors for new client connection.") h),
     None).
Proof. intros Hq. unfold add_client. by rewrite Hq. Qed.

Lemma zip_domain_fresh (c : Conn) (cs : list Conn) (q : list Processor) :
  c ∉ cs -> (list_to_map (zip cs q) : gmap Conn Processor) !! c = None.
Proof.
  intros Hc. apply not_elem_of_list_to_map_1. intros Hin.
  apply Hc. apply list_elem_of_fmap in Hin as [[c' p'] [-> Hin]].
  by apply elem_of_zip_l in Hin.
Qed.

Lemma zip_domain_NoDup (cs : list Conn) (q : list Processor) :
  NoDup cs -> NoDup (zip cs q).*1.
Proof.
  revert q. induction cs as [|c cs IH]; intros [|p q] Hnd; simpl;
    try apply NoDup_nil_2.
  apply NoDup_cons in Hnd as [Hc Hnd]. apply NoDup_cons. split; [|by apply IH].
  intros Hin. apply Hc.
  apply list_elem_of_fmap in Hin as [[c' p'] [-> Hin]].
  by apply elem_of_zip_l in Hin.
Qed.

Lemma add_clients_spec (cs : list Conn) :
  forall h : t,
    NoDup cs ->
    let q := _connect_waiters h in
    let h' := fst (add_clients cs h) in
    snd (add_clients cs h)
      = map Some (take (length cs) q) ++ replicate (length cs - length q) None
    /\ _connect_waiters h' = drop (length cs) q
    /\ _ws_clients h' = list_to_map (zip cs q) ∪ _ws_clients h
    /\ _processors h' = _processors h.
Proof.
  induction cs as [|c cs IH]; intros h Hnd; cbv zeta.
  - simpl. rewrite drop_0. repeat split; try done.
    by rewrite (left_id_L ∅ (∪)).
  - apply NoDup_cons in Hnd as [Hc Hnd]. simpl.
    destruct (_connect_waiters h) as [|p q] eqn:Hq.
    + rewrite (add_client_surplus c h Hq).
      specialize (IH (emit (EvSendClose c)
        (emit (EvLogMsg "No waiting processors for new client connection.") h)) Hnd).
      simpl in IH. rewrite Hq in IH.
      destruct (add_clients cs _) as [h2 rs]. simpl in *.
      destruct IH as (Hrs & Hw & Hm & Hp).
      rewrite Hrs, Hw, Hm, Hp, take_nil, drop_nil, !zip_with_nil_r. simpl.
      rewrite Nat.sub_0_r. done.
    + rewrite (add_client_head c p q h Hq).
      specialize (IH (set_ws_clients (<[c := p]> (_ws_clients h))
                        (set_connect_waiters q h)) Hnd).
      simpl in IH.
      destruct (add_clients cs _) as [h2 rs]. simpl in *.
      destruct IH as (Hrs & Hw & Hm & Hp).
      rewrite Hrs, Hw, Hm, Hp. repeat split; try done.
      rewrite <- insert_union_l. symmetry. apply insert_union_r.
      by apply zip_domain_fresh.
Qed.

(** C1 — connections are handed to waiting processors first come, first
    served.  After [connect] has been called for [ps] (in that order) on a
    harness whose queue holds [_connect_waiters h], the distinct
    connections [cs] becoming ready one after the other are answered by
    [add_client] with the waiting processors in queue order (and with
    nothing once the queue is exhausted); the processors served leave the
    queue, the registry gains exactly the pairs (i-th connection, i-th
    waiter), so every served processor has one connection of its own, and
    the counter is untouched. *)
Theorem connections_served_fifo (ps : list Processor) (cs : list Conn) (h : t) :
  NoDup cs ->
  let q := _connect_waiters h ++ ps in
  let h' := fst (add_clients cs (connects ps h)) in
  snd (add_clients cs (connects ps h))
    = map Some (take (length cs) q) ++ replicate (length cs - length q) None
  /\ _connect_waiters h' = drop (length cs) q
  /\ _ws_clients h' = list_to_map (zip cs q) ∪ _ws_clients h
  /\ (forall i c p, cs !! i = Some c -> q !! i = Some p ->
        _ws_clients h' !! c = Some p)
  /\ _processors h' = _processors h.
Proof.
  intros Hnd q h'.
  destruct (add_clients_spec cs (connects ps h) Hnd) as (Hrs & Hw & Hm & Hp).
  rewrite connects_waiters in Hrs, Hw, Hm.
  destruct (connects_frame ps h) as [Hreg Hcnt].
  rewrite Hreg in Hm. rewrite Hcnt in Hp.
  repeat split; try done.
  intros i c p Hc Hpq. subst h'. rewrite Hm.
  apply lookup_union_Some_l.
  apply elem_of_list_to_map_1.
  - by apply zip_domain_NoDup.
  - apply list_elem_of_lookup. exists i.
    apply lookup_zip_with_Some. eauto.
Qed.

Lemma connections_served_fifo_witness :
  NoDup [1; 2]%nat
  /\ snd (add_clients [1; 2]%nat (connects [10; 11; 12]%nat example_harness))
     = [Some 10; Some 11]%nat.
Proof.
  assert (Hnd : NoDup [1; 2]%nat) by compute_done.
  split; [exact Hnd|].
  exact (proj1 (connections_served_fifo [10; 11; 12]%nat [1; 2]%nat
                  example_harness Hnd)).
Defined.

(** C8 — a connection that becomes ready while nobody waits is closed at
    once: [add_client] returns nothing, logs a message and sends the close;
    the queue stays empty and the registry, the counter and the rest of
    the harness are as before. *)
Theorem surplus_connection_closed (c : Conn) (h : t) :
  _connect_waiters h = [] ->
  snd (add_client c h) = None
  /\ log (fst (add_client c h))
     = log h ++ [EvLogMsg "No waiting processors for new client connection.";
                 EvSendClose c]
  /\ _connect_waiters (fst (add_client c h)) = []
  /\ _ws_clients (fst (add_client c h)) = _ws_clients h
  /\ _processors (fst (add_client c h)) = _processors h
  /\ fst (add_client c h)
     = emit (EvSendClose c)
         (emit (EvLogMsg "No waiting processors for new client connection.") h).
Proof.
  intros Hq. rewrite (add_client_surplus c h Hq). simpl.
  rewrite <- app_assoc. by rewrite Hq.
Qed.

Lemma surplus_connection_closed_witness :
  _connect_waiters example_harness = []
  /\ snd (add_client 5%nat example_harness) = None.
Proof.
  split; [reflexivity|].
  exact (proj1 (surplus_connection_closed 5%nat example_harness eq_refl)).
Defined.

(** C9 — [remove_client] always drops the connection's registry entry and
    touches neither the queue nor the counter.  It starts one connection
    attempt exactly when the connection had no entry and somebody still
    waits; with no entry and an empty queue the harness is left as it
    was. *)
Theorem remove_client_spec (c : Conn) (h : t) :
  _ws_clients (remove_client c h) = delete c (_ws_clients h)
  /\ _connect_waiters (remove_client c h) = _connect_waiters h
  /\ _processors (remove_client c h) = _processors h
  /\ log (remove_client c h)
     = log h ++ match _ws_clients h !! c, _connect_waiters h with
                | None, _ :: _ => [EvConnectWS]
                | _, _ => []
                end
  /\ match _ws_clients h !! c, _connect_waiters h with
     | None, [] => remove_client c h = h
     | _, _ => True
     end.
Proof.
  unfold remove_client.
  destruct (_ws_clients h !! c) as [p|] eqn:Hreg; simpl.
  - by rewrite app_nil_r.
  - destruct (_connect_waiters h) as [|p q] eqn:Hq; simpl.
    + rewrite app_nil_r. repeat split; try done.
      rewrite (delete_id _ _ Hreg). destruct h; simpl in *. by subst.
    + done.
Qed.

(** C10 — [connect] starts one connection attempt and appends the
    processor at the tail of the queue; the registry, the counter and the
    configuration of the harness are left as they were. *)
Theorem connect_frame (p : Processor) (h : t) :
  _connect_waiters (connect p h) = _connect_waiters h ++ [p]
  /\ log (connect p h) = log h ++ [EvConnectWS]
  /\ _ws_clients (connect p h) = _ws_clients h
  /\ _processors (connect p h) = _processors h
  /\ connect p h
     = set_connect_waiters (_connect_waiters h ++ [p]) (emit EvConnectWS h).
Proof. done. Qed.

(** *** The live-instance counter *)

Lemma call_method_state (m : method) (args : list pyval) (h : t) :
  let h' := fst (fst (call_method m args h)) in
  _processors h' = _processors h
  /\ _ws_clients h' = _ws_clients h
  /\ _connect_waiters h' = _connect_waiters h.
Proof.
  destruct m; simpl;
    (destruct args as [|a [|b [|c [|x args]]]]; simpl; try done);
    try (destruct a; done); try (destruct b; done); try (destruct c; done).
Qed.

Lemma fire_state (d : Deferred) :
  forall (res : pyval) (h : t),
    let h' := fst (fst (fire d res h)) in
    _processors h' = _processors h
    /\ _ws_clients h' = _ws_clients h
    /\ _connect_waiters h' = _connect_waiters h.
Proof.
  induction d as [|l d IH]; intros res h; cbv zeta; simpl; [done|].
  destruct (if is_failure res then on_failure l else on_result l)
    as [[m args]|]; [|apply IH].
  pose proof (call_method_state m (res :: args) h) as Hm.
  destruct (call_method m (res :: args) h) as [[h1 out] spawned].
  simpl in Hm.
  match goal with |- context [fire d ?r h1] =>
    pose proof (IH r h1) as Hd; destruct (fire d r h1) as [[h2 res2] more]
  end.
  simpl in *. intuition congruence.
Qed.

Lemma fire_contents_state (ds : list (Response * Deferred)) :
  forall h : t,
    let h' := fst (fire_contents ds h) in
    _processors h' = _processors h
    /\ _ws_clients h' = _ws_clients h
    /\ _connect_waiters h' = _connect_waiters h.
Proof.
  induction ds as [|[r d] ds IH]; intros h; cbv zeta; simpl; [done|].
  pose proof (fire_state d (content_value r) h) as Hd.
  destruct (fire d (content_value r) h) as [[h1 res] spawned].
  pose proof (IH h1) as Hds.
  destruct (fire_contents ds h1) as [h2 rs].
  simpl in *. intuition congruence.
Qed.

Lemma notify_state (p : Processor) (url : string) (data : option string)
    (ttl : Z) (outcome : Response + Failure) (h : t) :
  let h' := fst (notify p url data ttl outcome h) in
  _processors h' = _processors h
  /\ _ws_clients h' = _ws_clients h
  /\ _connect_waiters h' = _connect_waiters h.
Proof.
  cbv zeta. unfold notify, send_notification.
  match goal with |- context [fire ?d ?r ?h0] =>
    pose proof (fire_state d r h0) as Hd; destruct (fire d r h0) as [[h2 res] spawned]
  end.
  pose proof (fire_contents_state spawned h2) as Hc.
  destruct (fire_contents spawned h2) as [h3 rs].
  destruct (truthy_data data); simpl in *; intuition congruence.
Qed.

Lemma exec_processors (c : call) (h : t) :
  _processors (exec c h)
  = _processors h + match c with
                    | Run _ => 1
                    | RemoveProcessor _ => -1
                    | _ => 0
                    end.
Proof.
  destruct c; simpl; try lia.
  - unfold add_client. destruct (_connect_waiters h); simpl; lia.
  - unfold remove_client.
    destruct (_ws_clients h !! c); simpl; [lia|].
    destruct (_connect_waiters h); simpl; lia.
  - destruct (notify_state p url data ttl outcome h) as (-> & _). lia.
Qed.

Lemma execs_app (cs1 cs2 : list call) (h : t) :
  execs (cs1 ++ cs2) h = execs cs2 (execs cs1 h).
Proof. apply fold_left_app. Qed.

Lemma execs_processors (cs : list call) :
  forall h : t,
    _processors (execs cs h)
    = _processors h + count_runs cs - count_terminations cs.
Proof.
  induction cs as [|c cs IH]; intros h; simpl; [lia|].
  unfold execs in IH. rewrite IH, exec_processors.
  destruct c; lia.
Qed.

Lemma exactly_once_live (cs : list call) :
  forall (live dead : gset Processor),
    exactly_once live dead cs = true ->
    forall k : nat,
      Z.of_nat (size live) + count_runs (take k cs)
        - count_terminations (take k cs) >= 0.
Proof.
  induction cs as [|c cs IH]; intros live dead Hd k.
  - rewrite take_nil. simpl. lia.
  - destruct k as [|k]; [simpl; lia|].
    simpl take.
    destruct c; simpl in Hd |- *; try (specialize (IH _ _ Hd k); lia).
    + apply andb_true_iff in Hd as [Hfresh Hd].
      apply bool_decide_eq_true in Hfresh.
      specialize (IH _ _ Hd k).
      rewrite size_union, size_singleton in IH by set_solver. lia.
    + apply andb_true_iff in Hd as [Hin Hd].
      apply bool_decide_eq_true in Hin.
      specialize (IH _ _ Hd k).
      rewrite size_difference, size_singleton in IH by set_solver.
      assert (size live <> 0)%nat.
      { intros Hz. apply size_empty_inv in Hz. set_solver. }
      lia.
Qed.

(** C3, as the code has it — the live-instance counter counts.  [run]
    called once per processor of [ps] raises it by [length ps];
    [remove_processor] lowers it by one; and when every
    [remove_processor] comes from a processor whose [run] has returned
    and that has not terminated before, the counter of a fresh harness is
    never negative, whatever other calls come in between. *)
Theorem live_counter (cs : list call) (url : string) (scenario : value)
    (args : list value) :
  exactly_once ∅ ∅ cs = true ->
  (forall (ps : list Processor) (h : t),
      _processors (execs (map Run ps) h) = _processors h + Z.of_nat (length ps))
  /\ (forall h : t, _processors (remove_processor h) = _processors h - 1)
  /\ (forall k : nat,
        0 <= _processors (execs (take k cs) (__init__ url scenario args)))
  /\ _processors (execs cs (__init__ url scenario args))
     = count_runs cs - count_terminations cs.
Proof.
  intros Hd. repeat split.
  - intros ps h. rewrite execs_processors.
    induction ps as [|p ps IH]; simpl; [lia|].
    simpl length. lia.
  - intros k. rewrite execs_processors. simpl.
    pose proof (exactly_once_live cs ∅ ∅ Hd k) as Hk.
    rewrite size_empty in Hk. lia.
  - rewrite execs_processors. simpl. lia.
Qed.

Lemma live_counter_witness :
  exactly_once ∅ ∅ [Run 0%nat; Connect 0%nat; Run 1%nat; AddClient 4%nat;
                    RemoveProcessor 0%nat; RemoveProcessor 1%nat] = true
  /\ _processors
       (execs [Run 0%nat; Connect 0%nat; Run 1%nat; AddClient 4%nat;
               RemoveProcessor 0%nat; RemoveProcessor 1%nat] example_harness)
     = 0.
Proof.
  assert (Hd : exactly_once ∅ ∅
                 [Run 0%nat; Connect 0%nat; Run 1%nat; AddClient 4%nat;
                  RemoveProcessor 0%nat; RemoveProcessor 1%nat] = true)
    by (vm_compute; reflexivity).
  split; [exact Hd|].
  exact (proj2 (proj2 (proj2 (live_counter _ "ws://localhost:8080/"
                                (VFunc "aplt.scenarios" "basic") [] Hd)))).
Defined.

(** C3, as the claim states it, fails: one processor, launched by one
    [run], ends inside its own [processor.run()] and calls
    [remove_processor] once.  [run] has not counted it yet, so the counter
    of the fresh harness is -1 until [run] returns. *)
Lemma termination_inside_run_goes_negative :
  let cs := [RemoveProcessor 0%nat; Run 0%nat] in
  once_per_instance cs = true
  /\ _processors (execs (take 1 cs) example_harness) = -1
  /\ _processors (execs cs example_harness) = 0.
Proof. vm_compute. repeat split. Qed.

(** *** Notification results *)

Lemma results_for_app (p : Processor) (l1 l2 : list event) :
  results_for p (l1 ++ l2) = results_for p l1 ++ results_for p l2.
Proof.
  induction l1 as [|e l1 IH]; simpl; [done|].
  destruct e; try done. destruct (Nat.eqb p p0); simpl; by rewrite IH.
Qed.

Lemma send_notification_log (p : Processor) (url : string)
    (data : option string) (ttl : Z) (h : t) :
  log (fst (send_notification p url data ttl h))
  = log h ++ [if truthy_data data
              then EvPost url data (notification_headers h)
              else EvPost url None []]
  /\ results_for p (log (fst (send_notification p url data ttl h)))
     = results_for p (log h).
Proof.
  unfold send_notification.
  destruct (truthy_data data); simpl; rewrite results_for_app; simpl;
    by rewrite app_nil_r.
Qed.

(** X1 — The request succeeds and the body is read: the processor is resumed
    once, with the response and the body. *)
Lemma notification_delivered (p : Processor) (url : string)
    (data : option string) (ttl : Z) (code : Z) (body : string) (h : t) :
  let r := {| status := code; content_result := inl body |} in
  let h' := fst (notify p url data ttl (inl r) h) in
  log h' = log (fst (send_notification p url data ttl h))
             ++ [EvSendCommandResult p (PResponse r, PBody body)]
  /\ results_for p (log h')
     = results_for p (log h) ++ [(PResponse r, PBody body)]
  /\ snd (notify p url data ttl (inl r) h) = [PNone; PNone].
Proof.
  cbv zeta.
  destruct (send_notification_log p url data ttl h) as [_ Hres].
  unfold notify. destruct (send_notification p url data ttl h) as [h1 d] eqn:Hs.
  unfold send_notification in Hs. injection Hs as Hh1 Hd. subst d.
  simpl in *. rewrite results_for_app, Hres. simpl.
  by rewrite Nat.eqb_refl.
Qed.

(** X2 — The request fails: the processor is resumed once, with the failure. *)
Lemma notification_failure_delivered (p : Processor) (url : string)
    (data : option string) (ttl : Z) (f : Failure) (h : t) :
  let h' := fst (notify p url data ttl (inr f) h) in
  log h' = log (fst (send_notification p url data ttl h))
             ++ [EvSendCommandResult p (PNone, PFailure f)]
  /\ results_for p (log h')
     = results_for p (log h) ++ [(PNone, PFailure f)]
  /\ snd (notify p url data ttl (inr f) h) = [PNone].
Proof.
  cbv zeta.
  destruct (send_notification_log p url data ttl h) as [_ Hres].
  unfold notify. destruct (send_notification p url data ttl h) as [h1 d] eqn:Hs.
  unfold send_notification in Hs. injection Hs as Hh1 Hd. subst d.
  simpl in *. rewrite results_for_app, Hres. simpl.
  by rewrite Nat.eqb_refl.
Qed.

(** C2 — where the code departs from the claim.  When the request
    succeeds but reading the body fails with [f], the errback set up by
    [_sent_notification] is called as [_error_notif(failure, result,
    processor)], one argument more than [_error_notif] takes: the call
    raises [TypeError], which is left unhandled at the end of the chain,
    and the processor is never resumed: nothing is added to the results
    delivered to it. *)
Theorem body_failure_not_delivered (p : Processor) (url : string)
    (data : option string) (ttl : Z) (code : Z) (f : Failure) (h : t) :
  let r := {| status := code; content_result := inr f |} in
  let h' := fst (notify p url data ttl (inl r) h) in
  h' = fst (send_notification p url data ttl h)
  /\ results_for p (log h') = results_for p (log h)
  /\ snd (notify p url data ttl (inl r) h) = [PNone; PFailure (Raised TypeError)].
Proof.
  cbv zeta.
  destruct (send_notification_log p url data ttl h) as [_ Hres].
  unfold notify. destruct (send_notification p url data ttl h) as [h1 d] eqn:Hs.
  unfold send_notification in Hs. injection Hs as Hh1 Hd. subst d.
  simpl in *. done.
Qed.

Example body_failure_example :
  let r := {| status := 201;
              content_result := inr (TransportFailure "connection lost") |} in
  results_for 3%nat
    (log (fst (notify 3%nat "http://push.example/abc" (Some "payload"%string) 60
                 (inl r) example_harness)))
  = [].
Proof. reflexivity. Qed.

End HarnessFacts.

(** ** LoadRunner: pending calls and [finished] *)

Section SchedulerFacts.

Lemma set_cell_stagger_frame (fid : nat) (v : value) (w : World) :
  runner (set_cell_stagger fid v w) = runner w
  /\ delayed (set_cell_stagger fid v w) = delayed w
  /\ next_processor (set_cell_stagger fid v w) = next_processor w.
Proof. unfold set_cell_stagger. by destruct (frames w !! fid). Qed.

Lemma set_cell_harness_frame (fid i : nat) (w : World) :
  runner (set_cell_harness fid i w) = runner w
  /\ delayed (set_cell_harness fid i w) = delayed w
  /\ next_processor (set_cell_harness fid i w) = next_processor w.
Proof. unfold set_cell_harness. by destruct (frames w !! fid). Qed.

Lemma schedule_counted (fid : nat) (overall_delay : value) (delays : list Z) :
  forall w : World,
    pending_counted w ->
    pending_counted (fst (schedule fid overall_delay delays w)).
Proof.
  induction delays as [|delay rest IH]; intros w Hw; simpl; [done|].
  destruct (py_add_int overall_delay delay) as [e|t]; simpl.
  - unfold pending_counted, queued_calls in *. simpl. lia.
  - unfold callLater. destruct (t <? 0); simpl.
    + unfold pending_counted, queued_calls in *. simpl. lia.
    + apply IH. unfold pending_counted, queued_calls in *. simpl.
      rewrite length_app. simpl. lia.
Qed.

Lemma schedule_started (fid : nat) (overall_delay : value) (delays : list Z) :
  forall w : World,
    LoadRunner._started (runner (fst (schedule fid overall_delay delays w)))
    = LoadRunner._started (runner w).
Proof.
  induction delays as [|delay rest IH]; intros w; simpl; [done|].
  destruct (py_add_int overall_delay delay) as [e|t]; simpl; [done|].
  unfold callLater. destruct (t <? 0); simpl; [done|]. by rewrite IH.
Qed.

Lemma start_plans_counted (url : string) (fid : nat) (plans : list (list value)) :
  forall w : World,
    pending_counted w ->
    pending_counted (fst (start_plans url fid plans w)).
Proof.
  induction plans as [|plan rest IH]; intros w Hw; simpl; [done|].
  destruct plan as [|scenario [|quantity [|stagger [|overall_delay [|x plan]]]]];
    try done.
  destruct (py_div quantity stagger) as [e|iterations]; simpl.
  - unfold pending_counted, queued_calls in *. simpl.
    destruct (set_cell_harness_frame fid
      (length (harnesses (set_cell_stagger fid stagger w)))
      (set_cell_stagger fid stagger w)) as (-> & -> & _).
    destruct (set_cell_stagger_frame fid stagger w) as (-> & -> & _). done.
  - match goal with |- context [schedule fid overall_delay ?ds ?w0] =>
      pose proof (schedule_counted fid overall_delay ds w0) as Hs;
      destruct (schedule fid overall_delay ds w0) as [w1 [e|]]
    end; simpl in *.
    + apply Hs. unfold pending_counted, queued_calls in *. simpl.
      destruct (set_cell_harness_frame fid
        (length (harnesses (set_cell_stagger fid stagger w)))
        (set_cell_stagger fid stagger w)) as (-> & -> & _).
      destruct (set_cell_stagger_frame fid stagger w) as (-> & -> & _). done.
    + apply IH, Hs. unfold pending_counted, queued_calls in *. simpl.
      destruct (set_cell_harness_frame fid
        (length (harnesses (set_cell_stagger fid stagger w)))
        (set_cell_stagger fid stagger w)) as (-> & -> & _).
      destruct (set_cell_stagger_frame fid stagger w) as (-> & -> & _). done.
Qed.

Lemma start_counted (url : string) (w : World) :
  pending_counted w -> pending_counted (fst (start url w)).
Proof.
  intros Hw. unfold start.
  match goal with |- context [start_plans url ?fid ?ps ?w0] =>
    pose proof (start_plans_counted url fid ps w0 Hw) as Hs;
    destruct (start_plans url fid ps w0) as [w1 [e|]]
  end; done.
Qed.

Lemma run_cell_harness_frame (fid : nat) (w : World) :
  let w' := fst (run_cell_harness fid w) in
  delayed w' = delayed w
  /\ queued_calls w' = queued_calls w
  /\ LoadRunner._started (runner w') = LoadRunner._started (runner w)
  /\ frames w' = frames w.
Proof.
  cbv zeta. unfold run_cell_harness.
  destruct (frames w !! fid) as [[[i|] s]|]; try done.
  by destruct (harnesses w !! i).
Qed.

Lemma run_times_frame (n fid : nat) :
  forall w : World,
    let w' := fst (run_times n fid w) in
    delayed w' = delayed w
    /\ queued_calls w' = queued_calls w
    /\ LoadRunner._started (runner w') = LoadRunner._started (runner w)
    /\ frames w' = frames w.
Proof.
  induction n as [|n IH]; intros w; cbv zeta; simpl; [done|].
  pose proof (run_cell_harness_frame fid w) as H1.
  destruct (run_cell_harness fid w) as [w1 [e|]]; simpl in *; [done|].
  pose proof (IH w1) as H2. simpl in H2. intuition congruence.
Qed.

Lemma runall_frame (fid : nat) (w : World) :
  let w' := fst (runall fid w) in
  delayed w' = delayed w
  /\ (queued_calls w' = queued_calls w - 1
      \/ queued_calls w' = queued_calls w /\ snd (runall fid w) <> None)
  /\ LoadRunner._started (runner w') = LoadRunner._started (runner w).
Proof.
  cbv zeta. unfold runall.
  destruct (frames w !! fid) as [[i [[n|s|m f]|]]|]; simpl;
    try (repeat split; try done; by right).
  pose proof (run_times_frame (Z.to_nat n) fid w) as H1.
  destruct (run_times (Z.to_nat n) fid w) as [w1 [e|]]; simpl in *.
  - repeat split; try tauto. right. split; [tauto|done].
  - unfold queued_calls in *. simpl. repeat split; try tauto. left. lia.
Qed.

Lemma fire_counted (k : nat) (w : World) :
  pending_counted w -> pending_counted (fst (fire k w)).
Proof.
  intros Hw. unfold fire.
  destruct (delayed w !! k) as [c|] eqn:Hk; [|done].
  pose proof (runall_frame (closure c) (set_delayed (delete k (delayed w)) w)) as H1.
  simpl in H1. destruct H1 as (Hd & Hq & _).
  unfold pending_counted in *. rewrite Hd.
  apply lookup_lt_Some in Hk.
  rewrite length_delete by (apply lookup_lt_is_Some; lia).
  unfold queued_calls in *. simpl in *. lia.
Qed.

Lemma act_counted (a : action) (w : World) :
  pending_counted w -> pending_counted (act a w).
Proof.
  destruct a as [url|k|i c]; simpl.
  - apply start_counted.
  - apply fire_counted.
  - by destruct (harnesses w !! i).
Qed.

Lemma acts_counted (l : list action) :
  forall w : World, pending_counted w -> pending_counted (acts l w).
Proof.
  induction l as [|a l IH]; intros w Hw; simpl; [done|].
  apply IH. by apply act_counted.
Qed.

Lemma acts_not_started (l : list action) :
  forall w : World,
    Forall (λ a, match a with Start _ => False | _ => True end) l ->
    LoadRunner._started (runner (acts l w)) = LoadRunner._started (runner w).
Proof.
  induction l as [|a l IH]; intros w Hl; simpl; [done|].
  apply Forall_cons in Hl as [Ha Hl]. unfold acts in IH. rewrite (IH _ Hl).
  destruct a as [url|k|i c]; simpl; [done| |by destruct (harnesses w !! i)].
  unfold fire. destruct (delayed w !! k) as [c|]; [|done].
  destruct (runall_frame (closure c) (set_delayed (delete k (delayed w)) w))
    as (_ & _ & ->). done.
Qed.

Lemma all_drained (hs : list RunnerHarness.t) :
  LoadRunner.all (map (λ x, RunnerHarness._processors x =? 0) hs) = true
  <-> Forall (λ x, RunnerHarness._processors x = 0) hs.
Proof.
  induction hs as [|h hs IH]; simpl.
  - split; [intros _; apply Forall_nil_2 | done].
  - unfold LoadRunner.all in *. simpl. unfold id at 1.
    rewrite andb_true_iff, Z.eqb_eq, Forall_cons. by rewrite IH.
Qed.

Lemma finished_true (self : LoadRunner.t) :
  LoadRunner.finished self = true
  <-> LoadRunner._started self = true
      /\ LoadRunner._queued_calls self = 0
      /\ Forall (λ x, RunnerHarness._processors x = 0) (LoadRunner._harnesses self).
Proof.
  unfold LoadRunner.finished.
  change (LoadRunner.all [?a; ?b; ?c]) with (a && (b && (c && true))).
  rewrite !andb_true_iff, Z.eqb_eq, all_drained. tauto.
Qed.

(** C4 — [finished] is a function of the load runner's fields alone (it
    changes nothing), and it holds exactly when the runner has started,
    no scheduled call is outstanding and every harness has no live
    processor.  Whatever calls have happened since the load runner was
    built, [finished] is false as long as [start] was not among them, and
    false as long as the reactor still holds a delayed batch. *)
Theorem finished_spec :
  (forall self : LoadRunner.t,
      LoadRunner.finished self = true
      <-> LoadRunner._started self = true
          /\ LoadRunner._queued_calls self = 0
          /\ Forall (λ x, RunnerHarness._processors x = 0)
                    (LoadRunner._harnesses self))
  /\ (forall (plans : list (list value)) (l : list action),
        Forall (λ a, match a with Start _ => False | _ => True end) l ->
        LoadRunner.finished (runner (acts l (new_world plans))) = false)
  /\ (forall (plans : list (list value)) (l : list action),
        delayed (acts l (new_world plans)) <> [] ->
        LoadRunner.finished (runner (acts l (new_world plans))) = false).
Proof.
  split; [exact finished_true|]. split.
  - intros plans l Hl. apply not_true_is_false. intros Hf.
    apply finished_true in Hf as (Hs & _).
    rewrite (acts_not_started l _ Hl) in Hs. done.
  - intros plans l Hd. apply not_true_is_false. intros Hf.
    apply finished_true in Hf as (_ & Hq & _).
    assert (Hinv : pending_counted (acts l (new_world plans))).
    { apply acts_counted. unfold pending_counted, queued_calls. simpl. lia. }
    unfold pending_counted, queued_calls in Hinv. rewrite Hq in Hinv.
    destruct (delayed (acts l (new_world plans))); [done|]. simpl in Hinv. lia.
Qed.

(** *** A plan with a single entry *)

Lemma schedule_ints (fid : nat) (d : Z) (ks : list Z) :
  Forall (λ k, 0 <= d + k) ks ->
  forall w : World,
    schedule fid (VInt d) ks w
    = (set_delayed (delayed w ++ map (batch d fid) ks)
         (set_queued_calls (queued_calls w + Z.of_nat (length ks)) w), None).
Proof.
  induction ks as [|k ks IH]; intros Hks w.
  - destruct w as [[hs tp st q] fr dl np]. simpl.
    unfold set_delayed, set_queued_calls, set_runner, queued_calls. simpl.
    by rewrite app_nil_r, Z.add_0_r.
  - apply Forall_cons in Hks as [Hk Hks].
    simpl schedule. unfold callLater at 1.
    destruct (Z.ltb_spec (d + k) 0) as [|_]; [lia|].
    rewrite IH by done.
    change (length (k :: ks)) with (S (length ks)). rewrite Nat2Z.inj_succ.
    generalize (Z.of_nat (length ks)) as n. intros n.
    destruct w as [[hs tp st q] fr dl np].
    unfold set_delayed, set_queued_calls, set_runner, queued_calls.
    cbn [runner frames delayed next_processor LoadRunner._harnesses
         LoadRunner._testplans LoadRunner._started LoadRunner._queued_calls map].
    rewrite <- app_assoc. simpl app.
    by replace (q + Z.succ n) with (q + 1 + n) by lia.
Qed.

Lemma length_range (n : Z) : length (range n) = Z.to_nat n.
Proof. unfold range. by rewrite length_map, length_seq. Qed.

Lemma range_not_negative (n : Z) : Forall (λ k, 0 <= k) (range n).
Proof.
  unfold range. apply Forall_forall. intros k Hk.
  apply list_elem_of_fmap in Hk as (i & -> & _). lia.
Qed.

Lemma range_delays (d n : Z) : 0 <= d -> Forall (λ k, 0 <= d + k) (range n).
Proof.
  intros Hd. eapply Forall_impl; [apply range_not_negative|].
  simpl. intros k Hk. lia.
Qed.

Lemma start_single_plan (url : string) (sc : value) (q s d : Z) :
  s <> 0 ->
  Forall (λ k, 0 <= d + k) (range (q / s)) ->
  start url (new_world [[sc; VInt q; VInt s; VInt d]])
  = ({| runner :=
          {| LoadRunner._harnesses := [RunnerHarness.__init__ url sc []];
             LoadRunner._testplans := [[sc; VInt q; VInt s; VInt d]];
             LoadRunner._started := true;
             LoadRunner._queued_calls := Z.of_nat (Z.to_nat (q / s)) |};
        frames := [{| cell_harness := Some 0%nat; cell_stagger := Some (VInt s) |}];
        delayed := map (batch d 0) (range (q / s));
        next_processor := 0%nat |}, None).
Proof.
  intros Hs Hd. unfold start, new_world. simpl.
  apply Z.eqb_neq in Hs. rewrite Hs.
  rewrite schedule_ints by done. simpl. by rewrite length_range.
Qed.

Lemma run_times_one_harness (n : nat) (s : Z) :
  forall (h : RunnerHarness.t) (w : World),
    one_harness s h w ->
    exists h',
      snd (run_times n 0 w) = None
      /\ one_harness s h' (fst (run_times n 0 w))
      /\ RunnerHarness._processors h' = RunnerHarness._processors h + Z.of_nat n
      /\ delayed (fst (run_times n 0 w)) = delayed w
      /\ queued_calls (fst (run_times n 0 w)) = queued_calls w
      /\ LoadRunner._started (runner (fst (run_times n 0 w)))
         = LoadRunner._started (runner w).
Proof.
  induction n as [|n IH]; intros h w (Hf & Hh & Hd).
  - exists h. simpl. repeat split; try done. lia.
  - simpl. unfold run_cell_harness. rewrite Hf, Hh. simpl.
    set (w1 := set_next_processor _ _).
    destruct (IH (RunnerHarness.run (next_processor w) h) w1)
      as (h' & He & Ho & Hp & Hdl & Hq & Hst).
    { by repeat split. }
    exists h'. destruct (run_times n 0 w1) as [w2 [e|]]; [done|].
    cbn [fst snd] in *.
    split; [done|]. split; [exact Ho|]. split.
    { rewrite Hp. cbn [RunnerHarness.run RunnerHarness._processors
                       RunnerHarness.set_processors RunnerHarness.emit]. lia. }
    rewrite Hdl, Hq, Hst. done.
Qed.

Lemma fire_one_harness (k : nat) (s : Z) (h : RunnerHarness.t) (w : World) :
  0 <= s ->
  one_harness s h w ->
  (k < length (delayed w))%nat ->
  exists h',
    snd (fire k w) = None
    /\ one_harness s h' (fst (fire k w))
    /\ RunnerHarness._processors h' = RunnerHarness._processors h + s
    /\ length (delayed (fst (fire k w))) = (length (delayed w) - 1)%nat
    /\ queued_calls (fst (fire k w)) = queued_calls w - 1
    /\ LoadRunner._started (runner (fst (fire k w)))
       = LoadRunner._started (runner w).
Proof.
  intros Hs (Hf & Hh & Hd) Hk.
  destruct (lookup_lt_is_Some_2 _ _ Hk) as [c Hc].
  unfold fire. rewrite Hc.
  assert (Hcl : closure c = 0%nat).
  { rewrite Forall_forall in Hd. eapply Hd, list_elem_of_lookup_2, Hc. }
  rewrite Hcl. unfold runall. simpl frames. rewrite Hf. simpl.
  set (w1 := set_delayed _ _).
  destruct (run_times_one_harness (Z.to_nat s) s h w1)
    as (h' & He & Ho & Hp & Hdl & Hq & Hst).
  { split; [done|]. split; [done|]. subst w1. simpl. by apply Forall_delete. }
  exists h'. destruct (run_times (Z.to_nat s) 0 w1) as [w2 [e|]]; [done|].
  cbn [fst snd] in *.
  split; [done|]. split; [exact Ho|]. split; [lia|]. split; [|split].
  - simpl. rewrite Hdl. subst w1. simpl. by rewrite length_delete.
  - unfold queued_calls in *. simpl. rewrite Hq. done.
  - simpl. rewrite Hst. done.
Qed.

Lemma due_first_in_range (ds : list DelayedCall) :
  match due_first ds with
  | Some (k, _) => (k < length ds)%nat
  | None => ds = []
  end.
Proof.
  induction ds as [|c ds IH]; simpl; [done|].
  destruct (due_first ds) as [[k t]|]; [|lia].
  destruct (t <? seconds c); lia.
Qed.

Lemma run_reactor_one_harness (s : Z) (fuel : nat) :
  0 <= s ->
  forall (h : RunnerHarness.t) (w : World),
    one_harness s h w ->
    (length (delayed w) <= fuel)%nat ->
    exists h',
      snd (run_reactor fuel w) = None
      /\ harnesses (fst (run_reactor fuel w)) = [h']
      /\ RunnerHarness._processors h'
         = RunnerHarness._processors h + s * Z.of_nat (length (delayed w))
      /\ delayed (fst (run_reactor fuel w)) = []
      /\ queued_calls (fst (run_reactor fuel w))
         = queued_calls w - Z.of_nat (length (delayed w))
      /\ LoadRunner._started (runner (fst (run_reactor fuel w)))
         = LoadRunner._started (runner w).
Proof.
  intros Hs. induction fuel as [|fuel IH]; intros h w Ho Hlen.
  - exists h. simpl. destruct (delayed w) eqn:Hd; [|simpl in Hlen; lia].
    destruct Ho as (_ & Hh & _). simpl. repeat split; try done; lia.
  - simpl. pose proof (due_first_in_range (delayed w)) as Hdue.
    destruct (due_first (delayed w)) as [[k t]|].
    + destruct (fire_one_harness k s h w Hs Ho Hdue)
        as (h1 & He & Ho1 & Hp1 & Hl1 & Hq1 & Hst1).
      destruct (fire k w) as [w1 [e|]]; [done|]. simpl in *.
      destruct (IH h1 w1 Ho1) as (h' & He' & Hh' & Hp' & Hd' & Hq' & Hst');
        [lia|].
      exists h'. repeat split; try done; try congruence.
      * rewrite Hp', Hp1, Hl1. nia.
      * rewrite Hq', Hq1, Hl1. lia.
    + exists h. rewrite Hdue. destruct Ho as (_ & Hh & _).
      simpl. repeat split; try done; lia.
Qed.

(** A plan with one entry, integer fields, a positive stagger and a delay
    that is not negative: [start] raises nothing and schedules
    [quantity / stagger] batches, one second apart from [overall_delay]
    on; once the reactor has run them the counter of the harness is
    [stagger * (quantity / stagger)] and nothing is left to run. *)
Lemma single_plan_launch (url : string) (sc : value) (q s d : Z) :
  0 <= q -> 0 < s -> 0 <= d ->
  let w1 := fst (start url (new_world [[sc; VInt q; VInt s; VInt d]])) in
  let w2 := fst (run_reactor (Z.to_nat (q / s)) w1) in
  snd (start url (new_world [[sc; VInt q; VInt s; VInt d]])) = None
  /\ delayed w1 = map (batch d 0) (range (q / s))
  /\ queued_calls w1 = q / s
  /\ map RunnerHarness._processors (harnesses w1) = [0]
  /\ snd (run_reactor (Z.to_nat (q / s)) w1) = None
  /\ map RunnerHarness._processors (harnesses w2) = [s * (q / s)]
  /\ delayed w2 = []
  /\ queued_calls w2 = 0
  /\ LoadRunner._started (runner w2) = true.
Proof.
  intros Hq Hs Hd0. cbv zeta.
  assert (Hdiv : 0 <= q / s) by (apply Z.div_pos; lia).
  rewrite start_single_plan by (by apply range_delays || lia).
  simpl fst. simpl snd.
  set (w1 := {| runner := _ |}).
  destruct (run_reactor_one_harness s (Z.to_nat (q / s)) ltac:(lia)
              (RunnerHarness.__init__ url sc []) w1)
    as (h' & He & Hh & Hp & Hd & Hqc & Hst).
  { repeat split; try done. subst w1. simpl.
    apply Forall_forall. intros c Hc.
    apply list_elem_of_fmap in Hc as (k & -> & _). done. }
  { subst w1. simpl. by rewrite length_map, length_range. }
  repeat split; try done.
  - subst w1. unfold queued_calls. simpl. lia.
  - rewrite Hh. simpl. rewrite Hp. subst w1. simpl.
    rewrite length_map, length_range. f_equal. lia.
  - rewrite Hqc. subst w1. unfold queued_calls. simpl.
    rewrite length_map, length_range. lia.
Qed.

Lemma finished_spec_witness :
  delayed (acts [Start localhost] (new_world [[basic; VInt 2; VInt 1; VInt 0]]))
    <> []
  /\ LoadRunner.finished
       (runner (acts [Start localhost]
                  (new_world [[basic; VInt 2; VInt 1; VInt 0]]))) = false.
Proof.
  assert (H : delayed (acts [Start localhost]
                         (new_world [[basic; VInt 2; VInt 1; VInt 0]])) <> [])
    by (vm_compute; discriminate).
  split; [exact H|].
  exact (proj2 (proj2 finished_spec) _ _ H).
Defined.

(** The plan of the [LoadRunner] docstring: 1000 instances, 100 per second,
    no delay.  Ten batches, at 0 to 9 seconds, launch 1000 processors. *)
Example thousand_by_hundred :
  let w1 := fst (start localhost (new_world [[basic; VInt 1000; VInt 100; VInt 0]])) in
  let w2 := fst (run_reactor 10 w1) in
  map seconds (delayed w1) = [0; 1; 2; 3; 4; 5; 6; 7; 8; 9]
  /\ queued_calls w1 = 10
  /\ map RunnerHarness._processors (harnesses w2) = [1000]
  /\ LoadRunner.finished (runner w2) = false.
Proof. vm_compute. repeat split. Qed.

(** C5 — where the code departs from the claim.  With two entries,
    (basic, 2, 1, 0) and (other, 6, 3, 0), [start] schedules two batches
    for each, at 0 and 1 seconds, but all four closures share the cells of
    the one [start] call, which hold the last harness and the last stagger
    by the time the reactor runs them: each batch calls [run] three times
    on the harness of [other].  The harness of [basic] launches nothing
    and the harness of [other] launches twelve processors instead of six. *)
Theorem batches_run_on_last_harness :
  let plans := [[basic; VInt 2; VInt 1; VInt 0]; [other; VInt 6; VInt 3; VInt 0]] in
  let w1 := fst (start localhost (new_world plans)) in
  let w2 := fst (run_reactor 4 w1) in
  snd (start localhost (new_world plans)) = None
  /\ map seconds (delayed w1) = [0; 1; 0; 1]
  /\ map closure (delayed w1) = [0; 0; 0; 0]%nat
  /\ frames w1 = [{| cell_harness := Some 1%nat; cell_stagger := Some (VInt 3) |}]
  /\ snd (run_reactor 4 w1) = None
  /\ delayed w2 = []
  /\ map RunnerHarness._scenario (harnesses w2) = [basic; other]
  /\ map RunnerHarness._processors (harnesses w2) = [0; 12].
Proof. vm_compute. repeat split. Qed.

(** *** The processors the reactor starts *)

Lemma launched_app (l1 l2 : list event) :
  launched (l1 ++ l2) = launched l1 ++ launched l2.
Proof.
  induction l1 as [|e l1 IH]; simpl; [done|]. destruct e; simpl; by rewrite ?IH.
Qed.

Lemma unlogged_run (p : Processor) (h : RunnerHarness.t) :
  unlogged (RunnerHarness.run p h) = unlogged h.
Proof.
  unfold unlogged, launches, RunnerHarness.run. simpl.
  rewrite launched_app, length_app. simpl. lia.
Qed.

Lemma run_cell_harness_logged (fid : nat) (w : World) :
  all_logged w -> all_logged (fst (run_cell_harness fid w)).
Proof.
  intros Hw. unfold run_cell_harness.
  destruct (frames w !! fid) as [[[i|] s]|]; try done.
  destruct (harnesses w !! i) as [h|] eqn:Hi; [|done].
  unfold all_logged, harnesses in *. simpl.
  apply Forall_insert; [done|]. rewrite unlogged_run.
  by apply (Forall_lookup_1 _ _ _ _ Hw Hi).
Qed.

Lemma run_times_logged (n fid : nat) :
  forall w : World, all_logged w -> all_logged (fst (run_times n fid w)).
Proof.
  induction n as [|n IH]; intros w Hw; simpl; [done|].
  pose proof (run_cell_harness_logged fid w Hw) as H1.
  destruct (run_cell_harness fid w) as [w1 [e|]]; simpl in *; [done|].
  by apply IH.
Qed.

Lemma fire_logged (k : nat) (w : World) :
  all_logged w -> all_logged (fst (fire k w)).
Proof.
  intros Hw. unfold fire. destruct (delayed w !! k) as [c|]; [|done].
  unfold runall. simpl frames.
  destruct (frames w !! closure c) as [[i [[n|str|m f]|]]|]; try done.
  pose proof (run_times_logged (Z.to_nat n) (closure c)
                (set_delayed (delete k (delayed w)) w) Hw) as H1.
  destruct (run_times _ _ _) as [w1 [e|]]; simpl in *; done.
Qed.

Lemma run_reactor_logged (fuel : nat) :
  forall w : World, all_logged w -> all_logged (fst (run_reactor fuel w)).
Proof.
  induction fuel as [|fuel IH]; intros w Hw; simpl; [done|].
  destruct (due_first (delayed w)) as [[k t]|]; [|done].
  pose proof (fire_logged k w Hw) as H1.
  destruct (fire k w) as [w1 [e|]]; simpl in *; [done|]. by apply IH.
Qed.

Lemma logged_counters (l : list RunnerHarness.t) :
  Forall (λ h, unlogged h = 0) l ->
  map launches l = map RunnerHarness._processors l.
Proof.
  induction 1 as [|h l Hh Hl IH]; simpl; [done|].
  rewrite IH. f_equal. unfold unlogged in Hh. lia.
Qed.

(** The processors started for a plan with one entry: as many as the
    counter says. *)
Lemma single_plan_launched (url : string) (sc : value) (q s d : Z) :
  0 <= q -> 0 < s -> 0 <= d ->
  let w1 := fst (start url (new_world [[sc; VInt q; VInt s; VInt d]])) in
  let w2 := fst (run_reactor (Z.to_nat (q / s)) w1) in
  map launches (harnesses w2) = [s * (q / s)].
Proof.
  intros Hq Hs Hd. cbv zeta.
  destruct (single_plan_launch url sc q s d Hq Hs Hd)
    as (_ & _ & _ & _ & _ & Hp & _).
  cbv zeta in Hp. rewrite <- Hp. apply logged_counters.
  apply run_reactor_logged.
  rewrite start_single_plan by (by apply range_delays || lia).
  unfold all_logged, harnesses. simpl.
  apply Forall_cons. split; [done|]. apply Forall_nil_2.
Qed.

(** C6 — the remainder of [quantity / stagger] is dropped without a word.
    For a plan with the single entry (scenario, quantity, stagger, delay),
    the delay not negative, [start] raises nothing and schedules
    [quantity / stagger] batches; when the reactor has run them all, the
    harness has created and started [quantity - quantity mod stagger]
    processors, its counter says the same, and nothing is left that could
    launch the rest.  With quantity 150 and stagger 100 that is one batch
    of 100. *)
Theorem remainder_dropped (url : string) (sc : value) (q s d : Z) :
  0 <= q -> 0 < s -> 0 <= d ->
  let w1 := fst (start url (new_world [[sc; VInt q; VInt s; VInt d]])) in
  let w2 := fst (run_reactor (Z.to_nat (q / s)) w1) in
  snd (start url (new_world [[sc; VInt q; VInt s; VInt d]])) = None
  /\ length (delayed w1) = Z.to_nat (q / s)
  /\ snd (run_reactor (Z.to_nat (q / s)) w1) = None
  /\ map launches (harnesses w2) = [q - q mod s]
  /\ map RunnerHarness._processors (harnesses w2) = [q - q mod s]
  /\ delayed w2 = []
  /\ queued_calls w2 = 0.
Proof.
  intros Hq Hs Hd0. cbv zeta.
  destruct (single_plan_launch url sc q s d Hq Hs Hd0)
    as (He & Hd & _ & _ & He2 & Hp & Hd2 & Hq2 & _).
  pose proof (single_plan_launched url sc q s d Hq Hs Hd0) as Hl.
  assert (Hmod : s * (q / s) = q - q mod s) by (rewrite Z.mod_eq by lia; lia).
  rewrite Hmod in Hp, Hl.
  repeat split; try done.
  by rewrite Hd, length_map, length_range.
Qed.

Lemma remainder_dropped_witness :
  0 <= 150 /\ 0 < 100 /\ 0 <= 0
  /\ (let w1 := fst (start localhost (new_world [[basic; VInt 150; VInt 100; VInt 0]])) in
      let w2 := fst (run_reactor 1 w1) in
      length (delayed w1) = 1%nat
      /\ map launches (harnesses w2) = [100]
      /\ map RunnerHarness._processors (harnesses w2) = [100]
      /\ delayed w2 = []).
Proof.
  assert (H0 : 0 <= 150) by (intros H; discriminate H).
  assert (H1 : 0 < 100) by reflexivity.
  assert (H2 : 0 <= 0) by (intros H; discriminate H).
  split; [exact H0|]. split; [exact H1|]. split; [exact H2|].
  pose proof (remainder_dropped localhost basic 150 100 0 H0 H1 H2) as H.
  cbv zeta in H. destruct H as (_ & Hl & _ & Hn & Hp & Hd & _).
  cbv zeta. split; [exact Hl|]. split; [exact Hn|]. split; [exact Hp|exact Hd].
Defined.

End SchedulerFacts.

(** ** Malformed test plans *)

Section ParserFacts.

Variable int : string -> option Z.
Variable import_module : string -> option (string -> option value).



End ParserFacts.




(** ** More on the harness *)

Section HarnessCalls.

Import RunnerHarness.

Lemma remove_client_parts (c : Conn) (h : t) :
  _ws_clients (remove_client c h) = delete c (_ws_clients h)
  /\ _connect_waiters (remove_client c h) = _connect_waiters h
  /\ _processors (remove_client c h) = _processors h.
Proof.
  unfold remove_client. destruct (_ws_clients h !! c); simpl; [done|].
  destruct (_connect_waiters h) eqn:Hq; simpl; by rewrite ?Hq.
Qed.

(** X3 — Whatever the transport answers, a notification resumes nobody but the
    processor that asked, and that one at most once. *)
Theorem only_requester_resumed (p p' : Processor) (url : string)
    (data : option string) (ttl : Z) (outcome : Response + Failure) (h : t) :
  p' <> p ->
  results_for p' (log (fst (notify p url data ttl outcome h)))
  = results_for p' (log h)
  /\ (length (results_for p (log (fst (notify p url data ttl outcome h))))
      <= S (length (results_for p (log h))))%nat.
Proof.
  intros Hne. apply Nat.eqb_neq in Hne.
  destruct outcome as [[code [body|f]]|f];
    unfold notify, send_notification; destruct (truthy_data data); simpl;
    rewrite ?results_for_app; simpl; rewrite ?Hne, ?Nat.eqb_refl, ?app_nil_r;
    rewrite ?length_app; simpl; split; first [done | lia].
Qed.

Lemma only_requester_resumed_witness :
  (4 <> 3)%nat
  /\ results_for 4%nat
       (log (fst (notify 3%nat "http://push.example/abc" None 0
                    (inr (TransportFailure "refused")) example_harness)))
     = [].
Proof.
  assert (Hne : (4 <> 3)%nat) by discriminate.
  split; [exact Hne|].
  exact (proj1 (only_requester_resumed 3%nat 4%nat "http://push.example/abc"
                  None 0 (inr (TransportFailure "refused")) example_harness Hne)).
Defined.

Lemma requests_app (l1 l2 : list event) :
  requests (l1 ++ l2) = (requests l1 + requests l2)%nat.
Proof.
  induction l1 as [|e l1 IH]; simpl; [done|]. destruct e; simpl; lia.
Qed.

(** X4 — A notification makes one HTTP request and never a second one,
    whatever the transport answers.  The request carries the payload and
    the four fixed headers when there is a payload, and neither body nor
    headers when the payload is missing or empty. *)
Theorem one_request_per_notification (p : Processor) (url : string)
    (data : option string) (ttl : Z) (outcome : Response + Failure) (h : t) :
  requests (log (fst (notify p url data ttl outcome h)))
  = S (requests (log h))
  /\ nth_error (log (fst (notify p url data ttl outcome h))) (length (log h))
     = Some (match data with
             | Some (String c payload) =>
                 EvPost url (Some (String c payload)) (notification_headers h)
             | _ => EvPost url None []
             end).
Proof.
  destruct outcome as [[code [body|f]]|f];
    unfold notify, send_notification;
    (destruct data as [[|c payload]|]); simpl;
    rewrite ?requests_app; simpl;
    rewrite <- ?app_assoc; simpl;
    (split; [lia|]);
    (rewrite nth_error_app2 by lia); by rewrite Nat.sub_diag.
Qed.

(** X5 — Each part of the harness is changed by two calls only: the registry by
    [add_client] and [remove_client], the queue by [connect] and
    [add_client], the counter by [run] and [remove_processor].  Timers,
    counters and notifications, whatever their outcome, change none. *)
Theorem calls_frame (c : call) (h : t) :
  match c with
  | AddClient _ | RemoveClient _ => True
  | _ => _ws_clients (exec c h) = _ws_clients h
  end
  /\ match c with
     | Connect _ | AddClient _ => True
     | _ => _connect_waiters (exec c h) = _connect_waiters h
     end
  /\ match c with
     | Run _ | RemoveProcessor _ => True
     | _ => _processors (exec c h) = _processors h
     end.
Proof.
  destruct c as [p|p|conn|conn|p|p url data ttl outcome|name d|name n];
    simpl; try done.
  - unfold add_client. by destruct (_connect_waiters h).
  - by destruct (remove_client_parts conn h) as (_ & -> & ->).
  - destruct (notify_state p url data ttl outcome h) as (H1 & H2 & H3). done.
Qed.

(** X6 — A connection that is handed the head waiter and then closes: the
    registry is back to what it was, the waiter has left the queue and is
    registered nowhere, and no new connection attempt is started for it. *)
Theorem open_close_round_trip (c : Conn) (p : Processor) (q : list Processor)
    (h : t) :
  _connect_waiters h = p :: q ->
  _ws_clients h !! c = None ->
  let h' := remove_client c (fst (add_client c h)) in
  _ws_clients h' = _ws_clients h
  /\ _connect_waiters h' = q
  /\ log h' = log h
  /\ _processors h' = _processors h.
Proof.
  intros Hq Hc. cbv zeta. rewrite (add_client_head c p q h Hq). simpl.
  unfold remove_client. simpl. rewrite lookup_insert_eq. simpl.
  by rewrite delete_insert_id.
Qed.

Lemma open_close_round_trip_witness :
  _connect_waiters (connect 7%nat example_harness) = [7%nat]
  /\ _ws_clients (connect 7%nat example_harness) !! 1%nat = None
  /\ _connect_waiters
       (remove_client 1%nat (fst (add_client 1%nat (connect 7%nat example_harness))))
     = [].
Proof.
  split; [reflexivity|]. split; [reflexivity|].
  exact (proj1 (proj2 (open_close_round_trip 1%nat 7%nat []
                         (connect 7%nat example_harness) eq_refl eq_refl))).
Defined.

(** X7 — A close reported twice for one connection: the second call finds no
    entry, so the registry, the queue and the counter stay as the first
    call left them, but one more connection attempt is started if anybody
    waits. *)
Theorem close_twice (c : Conn) (h : t) :
  let h1 := remove_client c h in
  let h2 := remove_client c h1 in
  _ws_clients h2 = _ws_clients h1
  /\ _connect_waiters h2 = _connect_waiters h
  /\ _processors h2 = _processors h
  /\ log h2 = log h1 ++ match _connect_waiters h with
                        | [] => []
                        | _ :: _ => [EvConnectWS]
                        end.
Proof.
  cbv zeta.
  destruct (remove_client_parts c h) as (H0 & H2 & H3).
  assert (H1 : _ws_clients (remove_client c h) !! c = None)
    by (rewrite H0; apply lookup_delete_eq).
  clear H0. generalize dependent (remove_client c h). intros h1 H2 H3 H1.
  unfold remove_client. rewrite H1. simpl. rewrite H2, (delete_id _ _ H1).
  destruct (_connect_waiters h); simpl; rewrite ?app_nil_r; done.
Qed.

Lemma exec_waiters (c : call) (h : t) :
  match c with
  | AddClient conn =>
      match snd (add_client conn h) with
      | Some p => [p]
      | None => []
      end
  | _ => []
  end ++ _connect_waiters (exec c h)
  = _connect_waiters h ++ match c with Connect p => [p] | _ => [] end.
Proof.
  destruct c as [p|p|conn|conn|p|p url data ttl outcome|name d|name n];
    simpl; rewrite ?app_nil_r; try done.
  - unfold add_client. destruct (_connect_waiters h) eqn:Hq; simpl; by rewrite ?Hq.
  - by destruct (remove_client_parts conn h) as (_ & -> & _).
  - by destruct (notify_state p url data ttl outcome h) as (_ & _ & ->).
Qed.

(** X8 — No waiter is lost or served twice, however [connect], [add_client]
    and the other calls interleave: the processors handed out so far,
    followed by those still in the queue, are the processors that were in
    the queue at the start followed by those enqueued since, in the order
    of their [connect] calls. *)
Theorem waiters_conserved (cs : list call) :
  forall h : t,
    served cs h ++ _connect_waiters (execs cs h)
    = _connect_waiters h ++ enqueued cs.
Proof.
  induction cs as [|c cs IH]; intros h.
  - simpl. by rewrite app_nil_r.
  - change (execs (c :: cs) h) with (execs cs (exec c h)).
    simpl served. rewrite <- app_assoc, IH, app_assoc, exec_waiters.
    rewrite <- app_assoc. by destruct c.
Qed.

(** *** Connection attempts *)

Lemma connection_attempts_app (l1 l2 : list event) :
  connection_attempts (l1 ++ l2)
  = (connection_attempts l1 + connection_attempts l2)%nat.
Proof.
  induction l1 as [|e l1 IH]; simpl; [done|]. destruct e; simpl; lia.
Qed.

Lemma call_method_attempts (m : method) (args : list pyval) (h : t) :
  connection_attempts (log (fst (fst (call_method m args h))))
  = connection_attempts (log h).
Proof.
  destruct m; simpl;
    (destruct args as [|a [|b [|c [|x args]]]]; simpl; try done);
    try (destruct a; done);
    try (destruct b; simpl; rewrite ?connection_attempts_app; simpl; lia);
    try (destruct c; simpl; rewrite ?connection_attempts_app; simpl; lia).
Qed.

Lemma fire_attempts (d : Deferred) :
  forall (res : pyval) (h : t),
    connection_attempts (log (fst (fst (fire d res h))))
    = connection_attempts (log h).
Proof.
  induction d as [|l d IH]; intros res h; simpl; [done|].
  destruct (if is_failure res then on_failure l else on_result l)
    as [[m args]|]; [|apply IH].
  pose proof (call_method_attempts m (res :: args) h) as Hm.
  destruct (call_method m (res :: args) h) as [[h1 out] spawned].
  match goal with |- context [fire d ?r h1] =>
    pose proof (IH r h1) as Hd; destruct (fire d r h1) as [[h2 res2] more]
  end.
  simpl in *. congruence.
Qed.

Lemma fire_contents_attempts (ds : list (Response * Deferred)) :
  forall h : t,
    connection_attempts (log (fst (fire_contents ds h)))
    = connection_attempts (log h).
Proof.
  induction ds as [|[r d] ds IH]; intros h; simpl; [done|].
  pose proof (fire_attempts d (content_value r) h) as Hd.
  destruct (fire d (content_value r) h) as [[h1 res] spawned].
  pose proof (IH h1) as Hds.
  destruct (fire_contents ds h1) as [h2 rs].
  simpl in *. congruence.
Qed.

Lemma notify_attempts (p : Processor) (url : string) (data : option string)
    (ttl : Z) (outcome : Response + Failure) (h : t) :
  connection_attempts (log (fst (notify p url data ttl outcome h)))
  = connection_attempts (log h).
Proof.
  unfold notify, send_notification.
  match goal with |- context [fire ?d ?r ?h0] =>
    pose proof (fire_attempts d r h0) as Hd;
    destruct (fire d r h0) as [[h2 res] spawned]
  end.
  pose proof (fire_contents_attempts spawned h2) as Hc.
  destruct (fire_contents spawned h2) as [h3 rs].
  simpl in *. rewrite Hc, Hd.
  destruct (truthy_data data); simpl; rewrite connection_attempts_app;
    simpl; lia.
Qed.

Lemma exec_attempts_cover (c : call) (h : t) :
  attempts_cover h -> attempts_cover (exec c h).
Proof.
  unfold attempts_cover. intros Hh.
  destruct c as [p|p|conn|conn|p|p url data ttl outcome|name d|name n]; simpl.
  - rewrite connection_attempts_app. simpl. lia.
  - rewrite connection_attempts_app, length_app. simpl. lia.
  - unfold add_client.
    destruct (_connect_waiters h) as [|p q] eqn:Hq; simpl in *; rewrite ?Hq.
    + rewrite !connection_attempts_app. simpl. lia.
    + rewrite map_size_insert. destruct (_ws_clients h !! conn); simpl; lia.
  - unfold remove_client.
    pose proof (map_size_delete conn (_ws_clients h)) as Hs.
    destruct (_ws_clients h !! conn); simpl in *.
    + lia.
    + destruct (_connect_waiters h) eqn:Hq; simpl in *; rewrite ?Hq;
        rewrite ?connection_attempts_app; simpl; lia.
  - done.
  - destruct (notify_state p url data ttl outcome h) as (_ & -> & ->).
    by rewrite notify_attempts.
  - rewrite connection_attempts_app. simpl. lia.
  - rewrite connection_attempts_app. simpl. lia.
Qed.

(** X9 — From a new harness on, whatever calls arrive in whatever order, the
    processors in the queue and in the registry together are never more
    than the connection attempts the harness has started: nobody waits
    without an attempt having been made for it. *)
Theorem attempts_cover_waiters (cs : list call) (url : string)
    (scenario : value) (args : list value) :
  let h := execs cs (__init__ url scenario args) in
  (length (_connect_waiters h) + size (_ws_clients h)
   <= connection_attempts (log h))%nat.
Proof.
  cbv zeta. change (attempts_cover (execs cs (__init__ url scenario args))).
  assert (H0 : attempts_cover (__init__ url scenario args)).
  { unfold attempts_cover. simpl. rewrite map_size_empty. lia. }
  revert H0. generalize (__init__ url scenario args).
  induction cs as [|c cs IH]; intros h Hh; [done|].
  apply IH. by apply exec_attempts_cover.
Qed.

(** *** The counter and the processors alive *)

Lemma survivors_count (cs : list call) :
  forall (live dead : gset Processor),
    exactly_once live dead cs = true ->
    Z.of_nat (size (survivors live cs))
    = Z.of_nat (size live) + count_runs cs - count_terminations cs.
Proof.
  induction cs as [|c cs IH]; intros live dead Hd; simpl; [lia|].
  destruct c; simpl in Hd |- *; try (rewrite (IH _ _ Hd); lia).
  - apply andb_true_iff in Hd as [Hfresh Hd].
    apply bool_decide_eq_true in Hfresh.
    rewrite (IH _ _ Hd), size_union, size_singleton by set_solver. lia.
  - apply andb_true_iff in Hd as [Hin Hd].
    apply bool_decide_eq_true in Hin.
    rewrite (IH _ _ Hd), size_difference, size_singleton by set_solver.
    assert (size live <> 0)%nat.
    { intros Hz. apply size_empty_inv in Hz. set_solver. }
    lia.
Qed.

(** X10 — When the drivers keep the exactly-once discipline, the counter of a
    harness is the number of processors launched and not yet terminated;
    so [check_processors] shuts the process down exactly when no launched
    processor is left, and leaves it alone otherwise. *)
Theorem counter_counts_the_living (cs : list call) (url : string)
    (scenario : value) (args : list value) :
  exactly_once ∅ ∅ cs = true ->
  let h := execs cs (__init__ url scenario args) in
  _processors h = Z.of_nat (size (survivors ∅ cs))
  /\ (survivors ∅ cs = ∅ -> check_processors h = [StopListening; ReactorStop])
  /\ (survivors ∅ cs <> ∅ -> check_processors h = []).
Proof.
  intros Hd. cbv zeta.
  assert (Hc : _processors (execs cs (__init__ url scenario args))
               = Z.of_nat (size (survivors ∅ cs))).
  { rewrite execs_processors, (survivors_count cs ∅ ∅ Hd), size_empty.
    simpl. lia. }
  split; [exact Hc|]. unfold check_processors. rewrite Hc. split.
  - intros ->. by rewrite size_empty.
  - intros Hne.
    destruct (Z.eqb_spec (Z.of_nat (size (survivors ∅ cs))) 0) as [Hz|]; [|done].
    exfalso. apply Hne. apply leibniz_equiv, size_empty_inv. lia.
Qed.

Lemma counter_counts_the_living_witness :
  exactly_once ∅ ∅ [Run 0%nat; Connect 0%nat; Run 1%nat;
                    RemoveProcessor 0%nat] = true
  /\ _processors (execs [Run 0%nat; Connect 0%nat; Run 1%nat;
                         RemoveProcessor 0%nat] example_harness)
     = Z.of_nat (size (survivors ∅ [Run 0%nat; Connect 0%nat; Run 1%nat;
                                    RemoveProcessor 0%nat])).
Proof.
  assert (Hd : exactly_once ∅ ∅ [Run 0%nat; Connect 0%nat; Run 1%nat;
                                 RemoveProcessor 0%nat] = true)
    by (vm_compute; reflexivity).
  split; [exact Hd|].
  exact (proj1 (counter_counts_the_living _ "ws://localhost:8080/"
                  (VFunc "aplt.scenarios" "basic") [] Hd)).
Defined.

End HarnessCalls.

(** ** More on the load runner *)

Section SchedulerRuns.

Lemma start_plans_entry (url : string) (fid : nat) (e : value * Z * Z * Z)
    (rest : list (list value)) (w : World) :
  sound_entry e ->
  start_plans url fid (int_plan e :: rest) w
  = start_plans url fid rest (after_entry url fid w e).
Proof.
  destruct e as [[[sc q] s] d]. unfold sound_entry. simpl. intros [Hs Hd].
  apply Z.eqb_neq in Hs. rewrite Hs, schedule_ints by (by apply range_delays).
  done.
Qed.

Lemma start_plans_ints (url : string) (fid : nat) (es : list (value * Z * Z * Z))
    (rest : list (list value)) :
  forall w : World,
    Forall sound_entry es ->
    start_plans url fid (map int_plan es ++ rest) w
    = start_plans url fid rest (fold_left (after_entry url fid) es w).
Proof.
  induction es as [|e es IH]; intros w Hes; [done|].
  apply Forall_cons in Hes as [He Hes].
  simpl map. simpl app. rewrite start_plans_entry by done.
  by rewrite IH.
Qed.

Lemma after_entry_parts (url : string) (fid : nat) (e : value * Z * Z * Z)
    (w : World) (fr : Frame) :
  frames w !! fid = Some fr ->
  let w' := after_entry url fid w e in
  harnesses w' = harnesses w ++ [RunnerHarness.__init__ url (scenario_of e) []]
  /\ delayed w' = delayed w ++ batches_of fid e
  /\ queued_calls w' = queued_calls w + Z.of_nat (length (batches_of fid e))
  /\ LoadRunner._started (runner w') = LoadRunner._started (runner w)
  /\ frames w' !! fid
     = Some {| cell_harness := Some (length (harnesses w));
               cell_stagger := Some (VInt (stagger_of e)) |}
  /\ next_processor w' = next_processor w.
Proof.
  intros Hfr. destruct e as [[[sc q] s] d]. cbv zeta.
  pose proof (lookup_lt_Some _ _ _ Hfr) as Hlt.
  unfold after_entry, set_cell_stagger. rewrite Hfr.
  unfold set_cell_harness. simpl frames.
  rewrite list_lookup_insert_eq by done. simpl.
  rewrite list_insert_insert_eq, list_lookup_insert_eq by done.
  unfold batches_of. by rewrite length_map.
Qed.

Lemma after_entries_parts (url : string) (fid : nat)
    (es : list (value * Z * Z * Z)) :
  forall (w : World) (fr : Frame),
    frames w !! fid = Some fr ->
    let w' := fold_left (after_entry url fid) es w in
    harnesses w'
    = harnesses w ++ map (λ e, RunnerHarness.__init__ url (scenario_of e) []) es
    /\ delayed w' = delayed w ++ concat (map (batches_of fid) es)
    /\ overcount w' = overcount w
    /\ LoadRunner._started (runner w') = LoadRunner._started (runner w)
    /\ is_Some (frames w' !! fid)
    /\ next_processor w' = next_processor w.
Proof.
  induction es as [|e es IH]; intros w fr Hfr; cbv zeta.
  - simpl. rewrite !app_nil_r. eauto 10.
  - simpl fold_left.
    destruct (after_entry_parts url fid e w fr Hfr)
      as (Hh & Hd & Hq & Hs & Hf & Hn).
    destruct (IH _ _ Hf) as (Hh' & Hd' & Hq' & Hs' & Hf' & Hn').
    rewrite Hh', Hd', Hq', Hs', Hn', Hh, Hd, Hs, Hn. simpl.
    rewrite <- !app_assoc. repeat split; try done.
    unfold overcount. rewrite Hq, Hd, length_app. lia.
Qed.

Lemma after_entries_frame (url : string) (fid : nat)
    (es : list (value * Z * Z * Z)) (e : value * Z * Z * Z)
    (w : World) (fr : Frame) :
  frames w !! fid = Some fr ->
  frames (fold_left (after_entry url fid) (es ++ [e]) w) !! fid
  = Some {| cell_harness := Some (length (harnesses w) + length es)%nat;
            cell_stagger := Some (VInt (stagger_of e)) |}.
Proof.
  intros Hfr. rewrite fold_left_app. simpl.
  destruct (after_entries_parts url fid es w fr Hfr)
    as (Hh & _ & _ & _ & [fr' Hf] & _).
  destruct (after_entry_parts url fid e _ fr' Hf) as (_ & _ & _ & _ & -> & _).
  by rewrite Hh, length_app, length_map.
Qed.

Lemma start_unfold (url : string) (plans : list (list value)) :
  start url (new_world plans)
  = match start_plans url 0 plans (entering plans) with
    | (w, Some e) => (w, Some e)
    | (w, None) => (set_started true w, None)
    end.
Proof. done. Qed.

Lemma entered_parts (url : string) (plans : list (list value))
    (es : list (value * Z * Z * Z)) :
  let w := fold_left (after_entry url 0) es (entering plans) in
  harnesses w = map (λ e, RunnerHarness.__init__ url (scenario_of e) []) es
  /\ delayed w = concat (map (batches_of 0) es)
  /\ queued_calls w = Z.of_nat (length (delayed w))
  /\ LoadRunner._started (runner w) = false
  /\ is_Some (frames w !! 0%nat)
  /\ next_processor w = 0%nat.
Proof.
  cbv zeta.
  destruct (after_entries_parts url 0 es (entering plans) first_frame eq_refl)
    as (Hh & Hd & Hq & Hs & Hf & Hn).
  rewrite Hh, Hd, Hs, Hn. repeat split; try done.
  unfold overcount in Hq. rewrite Hd in Hq.
  change (delayed (entering plans)) with (@nil DelayedCall) in *.
  change (queued_calls (entering plans)) with 0 in Hq.
  cbn [app length] in *. lia.
Qed.

(** X11 — A plan of integer tuples whose staggers are not zero and whose
    delays are not negative: [start] raises nothing; it creates one new harness per entry, in order, each for its
    own scenario; it schedules, entry after entry, [quantity / stagger]
    batches one second apart from the entry's delay on; [_queued_calls]
    is exactly the number of batches scheduled; and the runner is started. *)
Theorem start_schedules_every_entry (url : string)
    (es : list (value * Z * Z * Z)) :
  Forall sound_entry es ->
  let w := fst (start url (new_world (map int_plan es))) in
  snd (start url (new_world (map int_plan es))) = None
  /\ harnesses w = map (λ e, RunnerHarness.__init__ url (scenario_of e) []) es
  /\ delayed w = concat (map (batches_of 0) es)
  /\ queued_calls w = Z.of_nat (length (delayed w))
  /\ LoadRunner._started (runner w) = true.
Proof.
  intros Hes. cbv zeta.
  assert (Hstart : start url (new_world (map int_plan es))
                   = (set_started true
                        (fold_left (after_entry url 0) es
                           (entering (map int_plan es))), None)).
  { rewrite start_unfold.
    pose proof (start_plans_ints url 0 es [] (entering (map int_plan es)) Hes)
      as H.
    rewrite app_nil_r in H. by rewrite H. }
  rewrite Hstart.
  destruct (entered_parts url (map int_plan es) es) as (Hh & Hd & Hq & _).
  unfold harnesses, queued_calls in *. simpl. done.
Qed.

Lemma start_schedules_every_entry_witness :
  Forall sound_entry [(basic, 4, 2, 0); (other, 3, 1, 10)]
  /\ delayed (fst (start localhost
                     (new_world (map int_plan [(basic, 4, 2, 0); (other, 3, 1, 10)]))))
     = [batch 0 0 0; batch 0 0 1; batch 10 0 0; batch 10 0 1; batch 10 0 2].
Proof.
  assert (H : Forall sound_entry [(basic, 4, 2, 0); (other, 3, 1, 10)]).
  { repeat (apply Forall_cons;
            split; [split; [discriminate|intros H; discriminate H]|]).
    apply Forall_nil_2. }
  split; [exact H|].
  exact (proj1 (proj2 (proj2 (start_schedules_every_entry localhost _ H)))).
Defined.

(** X13 — A tuple that does not have exactly four elements stops [start] with
    [ValueError].  The entries before it (integers, staggers other than
    zero, delays not negative) stay scheduled and counted, no
    harness is made for the tuple itself or for what follows it, and the
    runner is not started: unless [start] is called again, [finished]
    stays false whatever the reactor and the harnesses do. *)
Theorem start_stops_at_wrong_arity (url : string)
    (es : list (value * Z * Z * Z)) (plan : list value)
    (rest : list (list value)) :
  Forall sound_entry es ->
  length plan <> 4%nat ->
  let plans := map int_plan es ++ plan :: rest in
  let w := fst (start url (new_world plans)) in
  snd (start url (new_world plans)) = Some ValueError
  /\ harnesses w = map (λ e, RunnerHarness.__init__ url (scenario_of e) []) es
  /\ delayed w = concat (map (batches_of 0) es)
  /\ queued_calls w = Z.of_nat (length (delayed w))
  /\ (forall l : list action,
        Forall (λ a, match a with Start _ => False | _ => True end) l ->
        LoadRunner.finished (runner (acts l w)) = false).
Proof.
  intros Hes Hlen. cbv zeta. rewrite start_unfold.
  rewrite start_plans_ints by done.
  destruct (entered_parts url (map int_plan es ++ plan :: rest) es)
    as (Hh & Hd & Hq & Hs & _).
  set (w := fold_left _ _ _) in *.
  assert (Hp : start_plans url 0 (plan :: rest) w = (w, Some ValueError)).
  { destruct plan as [|a [|b [|c [|d [|x plan]]]]]; try done. }
  rewrite Hp. simpl. repeat split; try done.
  intros l Hl. apply not_true_is_false. intros Hf.
  apply finished_true in Hf as (Hst & _).
  rewrite (acts_not_started l _ Hl), Hs in Hst. done.
Qed.

Lemma start_stops_at_wrong_arity_witness :
  Forall sound_entry [(basic, 4, 2, 0)]
  /\ length [other; VInt 6; VInt 3; VInt 0; VStr "extra"] <> 4%nat
  /\ snd (start localhost
            (new_world (map int_plan [(basic, 4, 2, 0)]
                        ++ [[other; VInt 6; VInt 3; VInt 0; VStr "extra"]])))
     = Some ValueError.
Proof.
  assert (H : Forall sound_entry [(basic, 4, 2, 0)]).
  { apply Forall_cons; split;
      [split; [discriminate|intros H; discriminate H]|]. apply Forall_nil_2. }
  assert (H4 : length [other; VInt 6; VInt 3; VInt 0; VStr "extra"] <> 4%nat)
    by discriminate.
  split; [exact H|]. split; [exact H4|].
  exact (proj1 (start_stops_at_wrong_arity localhost _ _ [] H H4)).
Defined.

(** X14 — A tuple whose quantity cannot be divided by its stagger (a stagger of
    zero raises [ZeroDivisionError], a quantity or stagger that is not an
    integer [TypeError]) stops [start] after the harness for it has been
    created: the harness is in [_harnesses], nothing is scheduled for it,
    the entries before it (integers, staggers other than zero, delays not
    negative) stay scheduled, and the runner is not started. *)
Theorem start_stops_at_division (url : string)
    (es : list (value * Z * Z * Z)) (scenario quantity stagger delay : value)
    (rest : list (list value)) (e : exn) :
  Forall sound_entry es ->
  py_div quantity stagger = inl e ->
  let plans := map int_plan es ++ [scenario; quantity; stagger; delay] :: rest in
  let w := fst (start url (new_world plans)) in
  snd (start url (new_world plans)) = Some e
  /\ harnesses w
     = map (λ e, RunnerHarness.__init__ url (scenario_of e) []) es
       ++ [RunnerHarness.__init__ url scenario []]
  /\ delayed w = concat (map (batches_of 0) es)
  /\ queued_calls w = Z.of_nat (length (delayed w))
  /\ LoadRunner._started (runner w) = false
  /\ (forall q : Z, py_div (VInt q) (VInt 0) = inl ZeroDivisionError).
Proof.
  intros Hes Hdiv. cbv zeta. rewrite start_unfold.
  rewrite start_plans_ints by done.
  destruct (entered_parts url
              (map int_plan es ++ [scenario; quantity; stagger; delay] :: rest) es)
    as (Hh & Hd & Hq & Hs & [fr Hf] & _).
  set (w := fold_left _ _ _) in *.
  simpl start_plans. rewrite Hdiv. simpl.
  destruct (set_cell_stagger_frame 0 stagger w) as (Hr1 & Hd1 & _).
  destruct (set_cell_harness_frame 0
              (length (harnesses (set_cell_stagger 0 stagger w)))
              (set_cell_stagger 0 stagger w)) as (Hr2 & Hd2 & _).
  unfold harnesses, queued_calls in *. simpl.
  rewrite Hr2, Hd2, Hr1, Hd1, Hh. done.
Qed.

Lemma start_stops_at_division_witness :
  Forall sound_entry []
  /\ py_div (VInt 10) (VInt 0) = inl ZeroDivisionError
  /\ snd (start localhost
            (new_world (map int_plan [] ++ [[basic; VInt 10; VInt 0; VInt 0]])))
     = Some ZeroDivisionError.
Proof.
  split; [apply Forall_nil_2|]. split; [reflexivity|].
  exact (proj1 (start_stops_at_division localhost [] basic (VInt 10) (VInt 0)
                  (VInt 0) [] ZeroDivisionError (Forall_nil_2 _) eq_refl)).
Defined.

(** *** [_queued_calls] never undercounts *)

Lemma schedule_overcount (fid : nat) (overall_delay : value) (delays : list Z) :
  forall w : World,
    overcount w <= overcount (fst (schedule fid overall_delay delays w)).
Proof.
  induction delays as [|delay rest IH]; intros w; simpl; [lia|].
  destruct (py_add_int overall_delay delay) as [e|t]; simpl.
  - unfold overcount, queued_calls. simpl. lia.
  - unfold callLater. destruct (t <? 0); simpl.
    + unfold overcount, queued_calls. simpl. lia.
    + etransitivity; [|apply IH].
      unfold overcount, queued_calls. simpl. rewrite length_app. simpl. lia.
Qed.

Lemma start_plans_overcount (url : string) (fid : nat)
    (plans : list (list value)) :
  forall w : World, overcount w <= overcount (fst (start_plans url fid plans w)).
Proof.
  induction plans as [|plan rest IH]; intros w; simpl; [lia|].
  destruct plan as [|scenario [|quantity [|stagger [|overall_delay [|x plan]]]]];
    try (simpl; lia).
  set (w0 := set_harnesses _ _).
  assert (H0 : overcount w0 = overcount w).
  { subst w0. unfold overcount, queued_calls, harnesses. simpl.
    destruct (set_cell_harness_frame fid
      (length (LoadRunner._harnesses (runner (set_cell_stagger fid stagger w))))
      (set_cell_stagger fid stagger w)) as (-> & -> & _).
    destruct (set_cell_stagger_frame fid stagger w) as (-> & -> & _). done. }
  destruct (py_div quantity stagger) as [e|iterations]; simpl; [lia|].
  pose proof (schedule_overcount fid overall_delay (range iterations) w0) as Hs.
  destruct (schedule fid overall_delay (range iterations) w0) as [w1 [e|]];
    simpl in *; [lia|].
  etransitivity; [|apply IH]. lia.
Qed.

Lemma start_overcount (url : string) (w : World) :
  overcount w <= overcount (fst (start url w)).
Proof.
  unfold start.
  match goal with |- context [start_plans url ?fid ?ps ?w0] =>
    pose proof (start_plans_overcount url fid ps w0) as Hs;
    destruct (start_plans url fid ps w0) as [w1 [e|]]
  end; simpl in *; exact Hs.
Qed.

Lemma fire_overcount (k : nat) (w : World) :
  overcount w <= overcount (fst (fire k w)).
Proof.
  unfold fire. destruct (delayed w !! k) as [c|] eqn:Hk; [|simpl; lia].
  pose proof (runall_frame (closure c) (set_delayed (delete k (delayed w)) w)) as H1.
  simpl in H1. destruct H1 as (Hd & Hq & _).
  unfold overcount. rewrite Hd.
  apply lookup_lt_Some in Hk.
  simpl. rewrite length_delete by (apply lookup_lt_is_Some; lia).
  unfold queued_calls in *. simpl in *. lia.
Qed.

Lemma acts_overcount (l : list action) :
  forall w : World, overcount w <= overcount (acts l w).
Proof.
  induction l as [|a l IH]; intros w; simpl; [lia|].
  etransitivity; [|apply IH].
  destruct a as [url|k|i c]; simpl.
  - apply start_overcount.
  - apply fire_overcount.
  - destruct (harnesses w !! i); unfold overcount, queued_calls; simpl; lia.
Qed.

Lemma overcounted_never_finished (w : World) :
  0 < overcount w -> LoadRunner.finished (runner w) = false.
Proof.
  intros Ho. apply not_true_is_false. intros Hf.
  apply finished_true in Hf as (_ & Hq & _).
  unfold overcount, queued_calls in Ho. lia.
Qed.

Lemma range_positive (n : Z) : 0 < n -> exists ks, range n = 0 :: ks.
Proof.
  intros Hn. unfold range.
  destruct (Z.to_nat n) as [|k] eqn:Hk; [lia|]. simpl. eauto.
Qed.

(** X15 — A tuple whose delay is not an integer, with at least one batch to
    schedule, after entries that [start] can schedule, stops [start] with
    [TypeError] after [_queued_calls] has
    been raised for the first batch and before the batch is handed to the
    reactor.  From then on the counter is one ahead of the calls that are
    really pending, and nothing brings it back: whatever happens next, a
    later successful [start] included, [finished] is never true again. *)
Theorem start_stops_at_bad_delay (url : string)
    (es : list (value * Z * Z * Z)) (scenario delay : value) (q s : Z)
    (rest : list (list value)) :
  Forall sound_entry es ->
  s <> 0 -> 0 < q / s -> (forall n : Z, delay <> VInt n) ->
  let plans := map int_plan es ++ [scenario; VInt q; VInt s; delay] :: rest in
  let w := fst (start url (new_world plans)) in
  snd (start url (new_world plans)) = Some TypeError
  /\ delayed w = concat (map (batches_of 0) es)
  /\ queued_calls w = Z.of_nat (length (delayed w)) + 1
  /\ (forall l : list action, LoadRunner.finished (runner (acts l w)) = false).
Proof.
  intros Hes Hs Hq Hdelay. cbv zeta. rewrite start_unfold.
  rewrite start_plans_ints by done.
  destruct (entered_parts url
              (map int_plan es ++ [scenario; VInt q; VInt s; delay] :: rest) es)
    as (Hh & Hd & Hqc & Hst & [fr Hf] & _).
  set (w := fold_left _ _ _) in *.
  simpl start_plans. apply Z.eqb_neq in Hs. rewrite Hs.
  destruct (range_positive (q / s) Hq) as [ks ->]. simpl schedule.
  assert (Hadd : py_add_int delay 0 = inl TypeError).
  { destruct delay as [n| |]; try done. by destruct (Hdelay n). }
  rewrite Hadd.
  destruct (set_cell_stagger_frame 0 (VInt s) w) as (Hr1 & Hd1 & _).
  destruct (set_cell_harness_frame 0
              (length (harnesses (set_cell_stagger 0 (VInt s) w)))
              (set_cell_stagger 0 (VInt s) w)) as (Hr2 & Hd2 & _).
  set (w' := set_queued_calls _ _).
  assert (Hd' : delayed w' = concat (map (batches_of 0) es)).
  { subst w'. simpl. by rewrite Hd2, Hd1. }
  assert (Hq' : queued_calls w' = Z.of_nat (length (delayed w')) + 1).
  { rewrite Hd'. subst w'. unfold queued_calls in *. simpl.
    rewrite Hr2, Hr1, Hqc, Hd. done. }
  simpl. repeat split; try done.
  intros l. apply overcounted_never_finished.
  pose proof (acts_overcount l w') as Hl.
  unfold overcount in Hl at 1. lia.
Qed.

Lemma start_stops_at_bad_delay_witness :
  Forall sound_entry []
  /\ 5 <> 0 /\ 0 < 10 / 5 /\ (forall n : Z, VStr "soon" <> VInt n)
  /\ snd (start localhost
            (new_world (map int_plan []
                        ++ [[basic; VInt 10; VInt 5; VStr "soon"]])))
     = Some TypeError.
Proof.
  assert (H1 : 5 <> 0) by discriminate.
  assert (H2 : 0 < 10 / 5) by reflexivity.
  assert (H3 : forall n : Z, VStr "soon" <> VInt n) by discriminate.
  split; [apply Forall_nil_2|]. split; [exact H1|]. split; [exact H2|].
  split; [exact H3|].
  exact (proj1 (start_stops_at_bad_delay localhost [] basic (VStr "soon") 10 5 []
                  (Forall_nil_2 _) H1 H2 H3)).
Defined.

(** X21 — A tuple with a negative delay and at least one batch to schedule,
    after entries that [start] can schedule, stops [start] with the
    reactor's [AssertionError]: [_queued_calls] has been raised for the
    batch that was refused, the runner is not started, and whatever
    happens next, a later successful [start] included, [finished] is
    never true. *)
Theorem start_stops_at_negative_delay (url : string)
    (es : list (value * Z * Z * Z)) (scenario : value) (q s d : Z)
    (rest : list (list value)) :
  Forall sound_entry es ->
  s <> 0 -> 0 < q / s -> d < 0 ->
  let plans := map int_plan es ++ [scenario; VInt q; VInt s; VInt d] :: rest in
  let w := fst (start url (new_world plans)) in
  snd (start url (new_world plans)) = Some AssertionError
  /\ delayed w = concat (map (batches_of 0) es)
  /\ queued_calls w = Z.of_nat (length (delayed w)) + 1
  /\ LoadRunner._started (runner w) = false
  /\ (forall l : list action, LoadRunner.finished (runner (acts l w)) = false).
Proof.
  intros Hes Hs Hq Hd0. cbv zeta. rewrite start_unfold.
  rewrite start_plans_ints by done.
  destruct (entered_parts url
              (map int_plan es ++ [scenario; VInt q; VInt s; VInt d] :: rest) es)
    as (Hh & Hd & Hqc & Hst & [fr Hf] & _).
  set (w := fold_left _ _ _) in *.
  simpl start_plans. apply Z.eqb_neq in Hs. rewrite Hs.
  destruct (range_positive (q / s) Hq) as [ks ->]. simpl schedule.
  unfold callLater. destruct (Z.ltb_spec (d + 0) 0) as [_|]; [|lia].
  destruct (set_cell_stagger_frame 0 (VInt s) w) as (Hr1 & Hd1 & _).
  destruct (set_cell_harness_frame 0
              (length (harnesses (set_cell_stagger 0 (VInt s) w)))
              (set_cell_stagger 0 (VInt s) w)) as (Hr2 & Hd2 & _).
  set (w' := set_queued_calls _ _).
  assert (Hd' : delayed w' = concat (map (batches_of 0) es)).
  { subst w'. simpl. by rewrite Hd2, Hd1. }
  assert (Hq' : queued_calls w' = Z.of_nat (length (delayed w')) + 1).
  { rewrite Hd'. subst w'. unfold queued_calls in *. simpl.
    rewrite Hr2, Hr1, Hqc, Hd. done. }
  assert (Hst' : LoadRunner._started (runner w') = false).
  { subst w'. simpl. rewrite Hr2, Hr1. exact Hst. }
  simpl. repeat split; try done.
  intros l. apply overcounted_never_finished.
  pose proof (acts_overcount l w') as Hl.
  unfold overcount in Hl at 1. lia.
Qed.

Lemma start_stops_at_negative_delay_witness :
  Forall sound_entry []
  /\ 1 <> 0 /\ 0 < 2 / 1 /\ -5 < 0
  /\ snd (start localhost
            (new_world (map int_plan [] ++ [[basic; VInt 2; VInt 1; VInt (-5)]])))
     = Some AssertionError.
Proof.
  assert (H1 : 1 <> 0) by discriminate.
  assert (H2 : 0 < 2 / 1) by reflexivity.
  assert (H3 : -5 < 0) by reflexivity.
  split; [apply Forall_nil_2|]. split; [exact H1|]. split; [exact H2|].
  split; [exact H3|].
  exact (proj1 (start_stops_at_negative_delay localhost [] basic 2 1 (-5) []
                  (Forall_nil_2 _) H1 H2 H3)).
Defined.

(** *** Which harness the batches launch on *)

Lemma run_times_aimed (n i : nat) (s : Z) :
  forall (w : World) (c : Z),
    aimed i s w ->
    counters w !! i = Some c ->
    let w' := fst (run_times n 0 w) in
    snd (run_times n 0 w) = None
    /\ aimed i s w'
    /\ counters w' = <[i := c + Z.of_nat n]> (counters w)
    /\ delayed w' = delayed w
    /\ queued_calls w' = queued_calls w
    /\ LoadRunner._started (runner w') = LoadRunner._started (runner w).
Proof.
  induction n as [|n IH]; intros w c (Hf & Hi & Hd) Hc; cbv zeta.
  - simpl. split; [done|]. split; [done|]. split; [|done].
    rewrite Z.add_0_r. symmetry. by apply list_insert_id.
  - simpl. unfold run_cell_harness. rewrite Hf.
    unfold counters in Hc. rewrite list_lookup_fmap in Hc.
    apply fmap_Some in Hc as (h & Hh & ->). rewrite Hh.
    set (w1 := set_next_processor _ _).
    assert (Hc1 : counters w1
                  = <[i := RunnerHarness._processors h + 1]> (counters w)).
    { subst w1. unfold counters, harnesses. simpl.
      by rewrite list_fmap_insert. }
    destruct (IH w1 (RunnerHarness._processors h + 1))
      as (He & Ho & Hp & Hdl & Hq & Hst).
    { split; [done|]. split; [|done].
      subst w1. unfold harnesses. simpl. by rewrite length_insert. }
    { rewrite Hc1. apply list_lookup_insert_eq.
      unfold counters. by rewrite length_fmap. }
    destruct (run_times n 0 w1) as [w2 [e|]]; [done|].
    cbn [fst snd] in *.
    split; [done|]. split; [exact Ho|]. split.
    { rewrite Hp, Hc1, list_insert_insert_eq. f_equal. lia. }
    rewrite Hdl, Hq, Hst. done.
Qed.

Lemma fire_aimed (k i : nat) (s c : Z) (w : World) :
  aimed i s w ->
  counters w !! i = Some c ->
  (k < length (delayed w))%nat ->
  let w' := fst (fire k w) in
  snd (fire k w) = None
  /\ aimed i s w'
  /\ counters w' = <[i := c + Z.of_nat (Z.to_nat s)]> (counters w)
  /\ length (delayed w') = (length (delayed w) - 1)%nat
  /\ queued_calls w' = queued_calls w - 1
  /\ LoadRunner._started (runner w') = LoadRunner._started (runner w).
Proof.
  intros (Hf & Hi & Hd) Hc Hk. cbv zeta.
  destruct (lookup_lt_is_Some_2 _ _ Hk) as [call Hcall].
  unfold fire. rewrite Hcall.
  assert (Hcl : closure call = 0%nat).
  { rewrite Forall_forall in Hd. eapply Hd, list_elem_of_lookup_2, Hcall. }
  rewrite Hcl. unfold runall. simpl frames. rewrite Hf.
  set (w1 := set_delayed _ _).
  destruct (run_times_aimed (Z.to_nat s) i s w1 c)
    as (He & Ho & Hp & Hdl & Hq & Hst).
  { split; [done|]. split; [done|]. subst w1. simpl. by apply Forall_delete. }
  { done. }
  destruct (run_times (Z.to_nat s) 0 w1) as [w2 [e|]]; [done|].
  cbn [fst snd] in *.
  split; [done|]. split; [exact Ho|]. split; [exact Hp|]. split; [|split].
  - simpl. rewrite Hdl. subst w1. simpl. by rewrite length_delete.
  - unfold queued_calls in *. simpl. rewrite Hq. done.
  - simpl. rewrite Hst. done.
Qed.

Lemma run_reactor_aimed (i : nat) (s : Z) (fuel : nat) :
  forall (w : World) (c : Z),
    aimed i s w ->
    counters w !! i = Some c ->
    (length (delayed w) <= fuel)%nat ->
    let w' := fst (run_reactor fuel w) in
    snd (run_reactor fuel w) = None
    /\ counters w'
       = <[i := c + Z.of_nat (Z.to_nat s) * Z.of_nat (length (delayed w))]>
           (counters w)
    /\ delayed w' = []
    /\ queued_calls w' = queued_calls w - Z.of_nat (length (delayed w))
    /\ LoadRunner._started (runner w') = LoadRunner._started (runner w).
Proof.
  induction fuel as [|fuel IH]; intros w c Ho Hc Hlen; cbv zeta.
  - simpl. destruct (delayed w) eqn:Hd; [|simpl in Hlen; lia].
    simpl. rewrite Z.mul_0_r, Z.add_0_r, Z.sub_0_r.
    repeat split; try done. symmetry. by apply list_insert_id.
  - simpl. pose proof (due_first_in_range (delayed w)) as Hdue.
    destruct (due_first (delayed w)) as [[k t]|].
    + destruct (fire_aimed k i s c w Ho Hc Hdue)
        as (He & Ho1 & Hp1 & Hl1 & Hq1 & Hst1).
      destruct (fire k w) as [w1 [e|]]; [done|]. cbn [fst snd] in *.
      destruct (IH w1 (c + Z.of_nat (Z.to_nat s)) Ho1)
        as (He' & Hp' & Hd' & Hq' & Hst'); [| lia |].
      { rewrite Hp1. apply list_lookup_insert_eq.
        apply lookup_lt_Some in Hc. done. }
      split; [done|]. split; [|split; [done|split]].
      * rewrite Hp', Hp1, list_insert_insert_eq, Hl1. f_equal. nia.
      * rewrite Hq', Hq1, Hl1. lia.
      * congruence.
    + rewrite Hdue. simpl. rewrite Z.mul_0_r, Z.add_0_r, Z.sub_0_r.
      repeat split; try done. symmetry. by apply list_insert_id.
Qed.

Lemma start_ints (url : string) (es : list (value * Z * Z * Z)) :
  Forall sound_entry es ->
  start url (new_world (map int_plan es))
  = (set_started true
       (fold_left (after_entry url 0) es (entering (map int_plan es))), None).
Proof.
  intros Hes. rewrite start_unfold.
  pose proof (start_plans_ints url 0 es [] (entering (map int_plan es)) Hes) as H.
  rewrite app_nil_r in H. by rewrite H.
Qed.

Lemma batches_closure (es : list (value * Z * Z * Z)) :
  Forall (λ c, closure c = 0%nat) (concat (map (batches_of 0) es)).
Proof.
  induction es as [|[[[sc q] s] d] es IH]; simpl; [apply Forall_nil_2|].
  apply Forall_app. split; [|done].
  apply Forall_forall. intros c Hc.
  apply list_elem_of_fmap in Hc as (k & -> & _). done.
Qed.

Lemma fresh_counters (url : string) (es : list (value * Z * Z * Z)) :
  RunnerHarness._processors
    <$> map (λ e, RunnerHarness.__init__ url (scenario_of e) []) es
  = replicate (length es) 0.
Proof. induction es as [|e es IH]; simpl; [done|]. by rewrite <- IH. Qed.

(** X12 — All the batches are run for the last entry of the plan.  For a plan
    of integer tuples with staggers other than zero and delays that are
    not negative, once the reactor has run every delayed call, the
    harnesses of the entries before the last have started no processor,
    and the harness of the last entry has started its own stagger of
    processors (none if that is negative) for every batch of the whole
    plan; the counters say the same. *)
Theorem every_batch_runs_for_the_last_entry (url : string)
    (es : list (value * Z * Z * Z)) (e : value * Z * Z * Z) :
  Forall sound_entry (es ++ [e]) ->
  let w1 := fst (start url (new_world (map int_plan (es ++ [e])))) in
  let w2 := fst (run_reactor (length (delayed w1)) w1) in
  snd (run_reactor (length (delayed w1)) w1) = None
  /\ map launches (harnesses w2)
     = replicate (length es) 0
       ++ [Z.max 0 (stagger_of e) * Z.of_nat (length (delayed w1))]
  /\ map RunnerHarness._processors (harnesses w2)
     = replicate (length es) 0
       ++ [Z.max 0 (stagger_of e) * Z.of_nat (length (delayed w1))]
  /\ delayed w2 = []
  /\ queued_calls w2 = 0.
Proof.
  intros Hes. cbv zeta. rewrite (start_ints url _ Hes). cbn [fst].
  destruct (entered_parts url (map int_plan (es ++ [e])) (es ++ [e]))
    as (Hh & Hd & Hq & _).
  pose proof (after_entries_frame url 0 es e
                (entering (map int_plan (es ++ [e]))) first_frame eq_refl) as Hf.
  set (w0 := fold_left _ _ _) in *.
  set (w1 := set_started true w0).
  assert (Hc : counters w1 = replicate (length es) 0 ++ [0]).
  { unfold counters. subst w1. unfold harnesses in *. simpl. rewrite Hh.
    rewrite fresh_counters, length_app. simpl. rewrite Nat.add_1_r.
    apply replicate_S_end. }
  destruct (run_reactor_aimed (length es) (stagger_of e) (length (delayed w1))
              w1 0) as (He & Hp & Hdl & Hqc & _).
  { split; [exact Hf|]. split.
    - subst w1. unfold harnesses in *. simpl. rewrite Hh, length_map, length_app.
      simpl. lia.
    - subst w1. simpl. rewrite Hd. apply batches_closure. }
  { rewrite Hc. rewrite lookup_app_r by (rewrite length_replicate; lia).
    by rewrite length_replicate, Nat.sub_diag. }
  { done. }
  assert (Hlog : all_logged (fst (run_reactor (length (delayed w1)) w1))).
  { apply run_reactor_logged. unfold all_logged. subst w1.
    unfold harnesses in *. simpl. rewrite Hh.
    apply Forall_forall. intros h Hin.
    apply list_elem_of_fmap in Hin as (x & -> & _). done. }
  split; [done|]. rewrite (logged_counters _ Hlog).
  assert (Hgoal : map RunnerHarness._processors
                    (harnesses (fst (run_reactor (length (delayed w1)) w1)))
                  = replicate (length es) 0
                    ++ [Z.max 0 (stagger_of e) * Z.of_nat (length (delayed w1))]);
    [|split; [exact Hgoal|split; [exact Hgoal|split; [done|]]]].
  - change (map RunnerHarness._processors
              (harnesses (fst (run_reactor (length (delayed w1)) w1))))
      with (counters (fst (run_reactor (length (delayed w1)) w1))).
    rewrite Hp, Hc.
    rewrite insert_app_r_alt by (rewrite length_replicate; lia).
    rewrite length_replicate, Nat.sub_diag. simpl. do 2 f_equal. lia.
  - rewrite Hqc. subst w1. unfold queued_calls in *. simpl. rewrite Hq. lia.
Qed.

Lemma every_batch_runs_for_the_last_entry_witness :
  Forall sound_entry ([(basic, 2, 1, 0)] ++ [(other, 6, 3, 0)])
  /\ (let w1 := fst (start localhost
                       (new_world (map int_plan
                                     ([(basic, 2, 1, 0)] ++ [(other, 6, 3, 0)])))) in
      map RunnerHarness._processors
        (harnesses (fst (run_reactor (length (delayed w1)) w1)))
      = replicate (length [(basic, 2, 1, 0)]) 0
        ++ [Z.max 0 (stagger_of (other, 6, 3, 0))
            * Z.of_nat (length (delayed w1))]).
Proof.
  assert (H : Forall sound_entry
                ([(basic, 2, 1, 0)] ++ [(other, 6, 3, 0)])).
  { repeat (apply Forall_cons;
            split; [split; [discriminate|intros H; discriminate H]|]).
    apply Forall_nil_2. }
  split; [exact H|].
  exact (proj1 (proj2 (proj2 (every_batch_runs_for_the_last_entry localhost
                                [(basic, 2, 1, 0)] (other, 6, 3, 0) H)))).
Defined.

(** *** When a run is over *)

Lemma acts_on_harness (cs : list RunnerHarness.call) :
  forall (w : World) (h : RunnerHarness.t),
    harnesses w = [h] ->
    let w' := acts (map (OnHarness 0) cs) w in
    harnesses w' = [RunnerHarness.execs cs h]
    /\ queued_calls w' = queued_calls w
    /\ LoadRunner._started (runner w') = LoadRunner._started (runner w)
    /\ delayed w' = delayed w.
Proof.
  induction cs as [|c cs IH]; intros w h Hh; cbv zeta; [done|].
  simpl. rewrite Hh. simpl.
  destruct (IH (set_harnesses [RunnerHarness.exec c h] w)
              (RunnerHarness.exec c h) eq_refl) as (H1 & H2 & H3 & H4).
  unfold acts in *. rewrite H1, H2, H3, H4. done.
Qed.

(** X16 — A plan with one entry and a delay that is not negative, after the
    reactor has run all its batches:
    whatever calls the harness then receives, [finished] holds, and
    [check_loadrunner] shuts the process down, exactly when the
    terminations have caught up with the processors launched, those of the
    batches and those of later [run] calls together. *)
Theorem finished_when_all_terminated (url : string) (sc : value) (q s d : Z)
    (cs : list RunnerHarness.call) :
  0 <= q -> 0 < s -> 0 <= d ->
  let w1 := fst (start url (new_world [[sc; VInt q; VInt s; VInt d]])) in
  let w2 := fst (run_reactor (Z.to_nat (q / s)) w1) in
  let w3 := acts (map (OnHarness 0) cs) w2 in
  (LoadRunner.finished (runner w3) = true
   <-> s * (q / s) + count_runs cs - count_terminations cs = 0)
  /\ (check_loadrunner (runner w3) = [StopListening; ReactorStop]
      <-> s * (q / s) + count_runs cs - count_terminations cs = 0).
Proof.
  intros Hq Hs Hd0. cbv zeta.
  destruct (single_plan_launch url sc q s d Hq Hs Hd0)
    as (_ & _ & _ & _ & _ & Hp & _ & Hq2 & Hst2).
  cbv zeta in Hp, Hq2, Hst2.
  set (w2 := fst (run_reactor _ _)) in *. clearbody w2.
  destruct (harnesses w2) as [|h2 [|h3 hs]] eqn:Hh; try discriminate.
  injection Hp as Hp.
  destruct (acts_on_harness cs w2 h2 Hh) as (H1 & H2 & H3 & _).
  set (w3 := acts _ w2) in *. clearbody w3.
  assert (Hfin : LoadRunner.finished (runner w3) = true
                 <-> s * (q / s) + count_runs cs - count_terminations cs = 0).
  { rewrite finished_true. unfold harnesses, queued_calls in *.
    rewrite H1, H2, H3, Hq2, Hst2, Forall_singleton, execs_processors, Hp.
    tauto. }
  split; [exact Hfin|].
  unfold check_loadrunner. rewrite <- Hfin.
  destruct (LoadRunner.finished (runner w3)); split; done.
Qed.

Lemma finished_when_all_terminated_witness :
  0 <= 4 /\ 0 < 2 /\ 0 <= 0
  /\ LoadRunner.finished
       (runner
          (acts (map (OnHarness 0)
                   [RunnerHarness.RemoveProcessor 0%nat;
                    RunnerHarness.RemoveProcessor 1%nat;
                    RunnerHarness.RemoveProcessor 2%nat;
                    RunnerHarness.RemoveProcessor 3%nat])
             (fst (run_reactor (Z.to_nat (4 / 2))
                     (fst (start localhost
                             (new_world [[basic; VInt 4; VInt 2; VInt 0]])))))))
     = true.
Proof.
  assert (H0 : 0 <= 4) by (intros H; discriminate H).
  assert (H1 : 0 < 2) by reflexivity.
  assert (H2 : 0 <= 0) by (intros H; discriminate H).
  split; [exact H0|]. split; [exact H1|]. split; [exact H2|].
  exact (proj2 (proj1 (finished_when_all_terminated localhost basic 4 2 0
                         [RunnerHarness.RemoveProcessor 0%nat;
                          RunnerHarness.RemoveProcessor 1%nat;
                          RunnerHarness.RemoveProcessor 2%nat;
                          RunnerHarness.RemoveProcessor 3%nat] H0 H1 H2))
           eq_refl).
Defined.

(** X17 — A quantity smaller than the stagger launches nothing at all: [start]
    schedules no batch, and [finished] holds as soon as [start] returns,
    so [check_loadrunner] shuts the process down at its first run. *)
Theorem quantity_below_stagger_runs_nothing (url : string) (sc : value)
    (q s d : Z) :
  0 <= q < s ->
  let w := fst (start url (new_world [[sc; VInt q; VInt s; VInt d]])) in
  snd (start url (new_world [[sc; VInt q; VInt s; VInt d]])) = None
  /\ delayed w = []
  /\ map RunnerHarness._processors (harnesses w) = [0]
  /\ LoadRunner.finished (runner w) = true
  /\ check_loadrunner (runner w) = [StopListening; ReactorStop].
Proof.
  intros Hq. cbv zeta.
  assert (Hdiv : q / s = 0) by (apply Z.div_small; lia).
  rewrite start_single_plan
    by (lia || (rewrite Hdiv; apply Forall_nil_2)).
  rewrite Hdiv. simpl. done.
Qed.

Lemma quantity_below_stagger_runs_nothing_witness :
  0 <= 50 < 100
  /\ LoadRunner.finished
       (runner (fst (start localhost
                       (new_world [[basic; VInt 50; VInt 100; VInt 0]]))))
     = true.
Proof.
  assert (H : 0 <= 50 < 100) by (split; [intros H; discriminate H|reflexivity]).
  split; [exact H|].
  exact (proj1 (proj2 (proj2 (proj2
           (quantity_below_stagger_runs_nothing localhost basic 50 100 0 H))))).
Defined.

End SchedulerRuns.

(** ** More on the parser *)

Section ParserShape.

Variable int : string -> option Z.
Variable import_module : string -> option (string -> option value).

Lemma parse_plans_spec (plans : list string) :
  forall (acc result : list (list value)),
    parse_plans int import_module plans acc = inr result
    <-> exists entries,
          result = acc ++ entries /\ Forall2 (parsed_entry int import_module) plans entries.
Proof.
  induction plans as [|plan plans IH]; intros acc result; simpl.
  - split.
    + intros [= <-]. exists []. by rewrite app_nil_r.
    + intros (entries & -> & Hf). apply Forall2_nil_inv_l in Hf as ->.
      by rewrite app_nil_r.
  - destruct (map Str.strip (Str.split "," (Str.strip plan)))
      as [|func_name parts] eqn:Hfields.
    { split; [done|]. intros (entries & _ & Hf).
      apply Forall2_cons_inv_l in Hf as (entry & entries' & Hp & _ & _).
      destruct Hp as (f & ps & fn & Hp & _). congruence. }
    destruct (locate_function import_module func_name) as [e|func] eqn:Hloc.
    { split; [done|]. intros (entries & _ & Hf).
      apply Forall2_cons_inv_l in Hf as (entry & entries' & Hp & _ & _).
      destruct Hp as (f & ps & fn & Hp & Hl & _). congruence. }
    rewrite IH. split.
    + intros (entries & -> & Hf).
      exists ((func :: try_int_list_coerce int parts) :: entries).
      rewrite <- app_assoc. split; [done|].
      apply Forall2_cons. split; [|done]. by exists func_name, parts, func.
    + intros (entries & -> & Hf).
      apply Forall2_cons_inv_l in Hf as (entry & entries' & Hp & Hf & ->).
      destruct Hp as (f & ps & fn & Hp & Hl & ->).
      exists entries'. rewrite <- app_assoc. split; [|done].
      simpl. congruence.
Qed.

(** X18 — [parse_testplan] succeeds exactly when every entry between the bars
    has a scenario reference that resolves, and then returns one tuple per
    entry, in order: the scenario followed by the remaining comma
    separated fields, stripped, as integers where [int] accepts them and
    as strings otherwise. *)
Theorem parse_testplan_entries (testplan : string) (result : list (list value)) :
  parse_testplan int import_module testplan = inr result
  <-> Forall2 (parsed_entry int import_module) (Str.split "|" testplan) result.
Proof.
  unfold parse_testplan. rewrite parse_plans_spec. split.
  - by intros (entries & -> & Hf).
  - intros Hf. by exists result.
Qed.

(** X19 — A plan entry that carries scenario arguments, or too few fields, is
    accepted by the parser and then refused by [start]: when the first
    entry does not have exactly four comma separated fields and the plan
    parses, [run_testplan] builds the load runner and [start] raises
    [ValueError] before it creates a harness or schedules anything. *)
Theorem plan_with_arguments_refused (url testplan raw : string)
    (raws : list string) (plans : list (list value)) :
  Str.split "|" testplan = raw :: raws ->
  length (Str.split "," (Str.strip raw)) <> 4%nat ->
  parse_testplan int import_module testplan = inr plans ->
  exists w,
    run_testplan int import_module url testplan = (Some w, Some ValueError)
    /\ harnesses w = []
    /\ delayed w = []
    /\ LoadRunner._started (runner w) = false
    /\ queued_calls w = 0.
Proof.
  intros Hsplit Hlen Hparse.
  pose proof Hparse as Hf. apply parse_plans_spec in Hf as (entries & -> & Hf).
  rewrite Hsplit in Hf.
  apply Forall2_cons_inv_l in Hf as (entry & entries' & Hp & _ & ->).
  destruct Hp as (f & ps & fn & Hp & _ & ->).
  assert (Hlen' : length (fn :: try_int_list_coerce int ps) <> 4%nat).
  { simpl. unfold try_int_list_coerce. rewrite length_map.
    apply (f_equal length) in Hp. rewrite length_map in Hp. simpl in Hp. lia. }
  unfold run_testplan. rewrite Hparse. simpl app.
  rewrite start_unfold.
  set (plan := fn :: try_int_list_coerce int ps) in *.
  assert (Hstart : start_plans url 0 (plan :: entries') (entering (plan :: entries'))
                   = (entering (plan :: entries'), Some ValueError)).
  { clearbody plan.
    destruct plan as [|a [|b [|c [|d [|x plan]]]]]; try done. }
  rewrite Hstart. eexists. split; [reflexivity|]. done.
Qed.

End ParserShape.

Lemma plan_with_arguments_refused_witness :
  Str.split "|" "aplt.scenarios:basic, 10, 5, 0, 7"
  = ["aplt.scenarios:basic, 10, 5, 0, 7"%string]
  /\ length (Str.split "," (Str.strip "aplt.scenarios:basic, 10, 5, 0, 7"))
     <> 4%nat
  /\ parse_testplan Decimal.int example_modules "aplt.scenarios:basic, 10, 5, 0, 7"
     = inr [[basic; VInt 10; VInt 5; VInt 0; VInt 7]]
  /\ exists w,
       run_testplan Decimal.int example_modules localhost
         "aplt.scenarios:basic, 10, 5, 0, 7"
       = (Some w, Some ValueError)
       /\ harnesses w = []
       /\ delayed w = []
       /\ LoadRunner._started (runner w) = false
       /\ queued_calls w = 0.
Proof.
  assert (H4 : length (Str.split "," (Str.strip "aplt.scenarios:basic, 10, 5, 0, 7"))
               <> 4%nat) by discriminate.
  split; [reflexivity|]. split; [exact H4|]. split; [reflexivity|].
  exact (plan_with_arguments_refused Decimal.int example_modules localhost
           "aplt.scenarios:basic, 10, 5, 0, 7"
           "aplt.scenarios:basic, 10, 5, 0, 7" []
           [[basic; VInt 10; VInt 5; VInt 0; VInt 7]] eq_refl H4 eq_refl).
Defined.

(** *** Scenario references *)

Section Locators.

Lemma split_nonempty (sep : ascii) (s : string) : Str.split sep s <> [].
Proof.
  destruct s as [|c s]; simpl; [done|].
  destruct (Ascii.eqb c sep); [done|]. by destruct (Str.split sep s).
Qed.

Lemma split_one (sep : ascii) (s b : string) :
  Str.split sep s = [b] -> s = b /\ Str.contains sep s = false.
Proof.
  revert b. induction s as [|c s IH]; intros b; simpl.
  - by intros [= <-].
  - destruct (Ascii.eqb c sep) eqn:Hc.
    + intros [= _ Hs]. by apply split_nonempty in Hs.
    + destruct (Str.split sep s) as [|piece pieces] eqn:Hs.
      * by apply split_nonempty in Hs.
      * intros [= <- ->]. destruct (IH piece eq_refl) as [-> Hn]. done.
Qed.

Lemma split_two (sep : ascii) (s a b : string) :
  Str.split sep s = [a; b] ->
  s = String.append a (String sep b)
  /\ Str.contains sep a = false /\ Str.contains sep b = false.
Proof.
  revert a. induction s as [|c s IH]; intros a; simpl; [discriminate|].
  destruct (Ascii.eqb c sep) eqn:Hc.
  - intros [= <- Hs]. apply Ascii.eqb_eq in Hc as ->.
    destruct (split_one sep s b Hs) as [-> Hn]. done.
  - destruct (Str.split sep s) as [|piece pieces] eqn:Hs; [discriminate|].
    intros [= <- ->]. destruct (IH piece eq_refl) as (-> & Ha & Hb).
    simpl. rewrite Hc, Ha. done.
Qed.

Lemma split_none (sep : ascii) (s : string) :
  Str.contains sep s = false -> Str.split sep s = [s].
Proof.
  induction s as [|c s IH]; simpl; [done|].
  intros H. apply orb_false_iff in H as [Hc Hs]. rewrite Hc, (IH Hs). done.
Qed.

Lemma split_at (sep : ascii) (a b : string) :
  Str.contains sep a = false ->
  Str.split sep (String.append a (String sep b)) = a :: Str.split sep b
  /\ Str.contains sep (String.append a (String sep b)) = true.
Proof.
  induction a as [|c a IH]; simpl.
  - intros _. by rewrite Ascii.eqb_refl.
  - intros H. apply orb_false_iff in H as [Hc Ha].
    destruct (IH Ha) as [-> ->]. rewrite Hc. by rewrite orb_true_r.
Qed.

Variable import_module : string -> option (string -> option value).

(** X20 — [locate_function] returns a scenario exactly for a reference of the
    form module, colon, name with no further colon, whose module imports
    and has the name; the scenario is that attribute.  Every other
    reference raises. *)
Theorem locate_function_resolves (func_name : string) (scenario : value) :
  locate_function import_module func_name = inr scenario
  <-> exists (mod_ name : string) (module : string -> option value),
        func_name = String.append mod_ (String ":" name)
        /\ Str.contains ":" mod_ = false
        /\ Str.contains ":" name = false
        /\ import_module mod_ = Some module
        /\ module name = Some scenario.
Proof.
  unfold locate_function. split.
  - destruct (Str.contains ":" func_name); simpl; [|discriminate].
    destruct (Str.split ":" func_name) as [|a [|b [|c l]]] eqn:Hs;
      try discriminate.
    destruct (split_two _ _ _ _ Hs) as (-> & Ha & Hb).
    destruct (import_module a) as [module|] eqn:Hm; [|discriminate].
    destruct (module b) as [v|] eqn:Hv; [|discriminate].
    intros [= <-]. by exists a, b, module.
  - intros (mod_ & name & module & -> & Ha & Hb & Hm & Hv).
    destruct (split_at ":" mod_ name Ha) as [Hs Hc].
    rewrite Hc, Hs, (split_none _ _ Hb), Hm, Hv. done.
Qed.

End Locators.
